(** * PanePilot: the hotkey visibility toggle of [src/index.ts]

    The program is a page of event wiring around a native layer
    ([$native]): it opens one webview, declares a boolean [visible], and
    registers a hotkey handler which refreshes the page, shows the webview
    and arms a one-shot handler that hides it again when Alt is released.

    The embedding keeps the shape of the source: the native layer is a
    store of surfaces and of registered callbacks, the two arrow functions
    are closures over the handle [wv], and every statement of the source is
    one step of a small state monad over the process state. *)

From Stdlib Require Import ZArith Lia.
From stdpp Require Import base list strings sorting.

Local Open Scope string_scope.
Local Open Scope list_scope.

(** ** Data *)

(** Modelled from the spec: [Modifiers] is an enumeration of the [$native]
    module, which is not part of the sources; the program only names
    [Modifiers.Alt]. *)
Inductive Modifiers : Type := Alt | Ctrl | Shift | Win.

#[global] Instance Modifiers_eq_dec : EqDecision Modifiers.
Proof. solve_decision. Defined.

(** A webview handle: the position of the surface in the native store. *)
Abbreviation handle := nat.

(** The two arrow functions of the source, as closures over the constant
    [wv] they capture (the variable [visible] is module level and lives in
    the process state). *)
Inductive closure : Type :=
| OnPress (wv : handle)    (* index.ts, lines 11-28 *)
| OnRelease (wv : handle). (* index.ts, lines 24-27 *)

#[global] Instance closure_eq_dec : EqDecision closure.
Proof. solve_decision. Defined.

(** Modelled from the spec: what the native layer keeps for one popup
    surface. [shown] is the last [setVisible] instruction ([false] while
    none was given), [html] the last markup passed to [setHtml], [alive]
    is cleared by [exit]. *)
Record surface : Type := Surface {
  title : string;
  width : Z;
  height : Z;
  shown : bool;
  html : string;
  alive : bool
}.

(** Everything the process does that is visible from outside the handler
    bodies, in program order: the calls into [$native], the callbacks the
    native layer invokes, and the assignments to [visible]. *)
Inductive effect : Type :=
| E_openWebview (t : string) (w h : Z) (ret : handle)
| E_setHtml (wv : handle) (markup : string)
| E_setVisible (wv : handle) (b : bool)
| E_exit (wv : handle)
| E_registerHotkey (m : Modifiers) (key : Z) (cb : closure)
| E_registerAltRelease (cb : closure)
| E_invoke (cb : closure)
| E_assign_visible (b : bool).

(** The process state. *)
Record world : Type := World {
  surfaces : list surface;                      (* native: webviews by handle *)
  hotkeys : list (Modifiers * Z * closure);     (* native: registerHotkey table *)
  alt_release : list closure;                   (* native: pending one-shot handlers *)
  visible : bool;                               (* index.ts, line 10 *)
  draws : nat;                                  (* Math.random() calls so far *)
  trace : list effect
}.

(** External events the native layer reacts to. *)
Inductive event : Type :=
| HotkeyPressed (m : Modifiers) (key : Z)
| AltReleased.

(** ** A state monad over the process state *)

Definition M (A : Type) : Type := world -> A * world.

Definition ret {A} (a : A) : M A := fun w => (a, w).

Definition bind {A B} (c : M A) (k : A -> M B) : M B :=
  fun w => let (a, w1) := c w in k a w1.

Definition get : M world := fun w => (w, w).

Definition modify (f : world -> world) : M unit := fun w => (tt, f w).

Definition exec {A} (c : M A) (w : world) : world := snd (c w).

Declare Scope toggle_scope.
Delimit Scope toggle_scope with toggle.
Notation "x <- c ;; k" := (bind c (fun x => k))
  (at level 100, c at next level, right associativity) : toggle_scope.
Notation "c ;; k" := (bind c (fun _ => k))
  (at level 100, right associativity) : toggle_scope.
Local Open Scope toggle_scope.

Definition set_surfaces (f : list surface -> list surface) (w : world) : world :=
  World (f (surfaces w)) (hotkeys w) (alt_release w) (visible w) (draws w) (trace w).

Definition set_hotkeys (f : list (Modifiers * Z * closure) -> list (Modifiers * Z * closure))
    (w : world) : world :=
  World (surfaces w) (f (hotkeys w)) (alt_release w) (visible w) (draws w) (trace w).

Definition set_alt_release (f : list closure -> list closure) (w : world) : world :=
  World (surfaces w) (hotkeys w) (f (alt_release w)) (visible w) (draws w) (trace w).

Definition set_visible (b : bool) (w : world) : world :=
  World (surfaces w) (hotkeys w) (alt_release w) b (draws w) (trace w).

Definition set_draws (n : nat) (w : world) : world :=
  World (surfaces w) (hotkeys w) (alt_release w) (visible w) n (trace w).

Definition log (e : effect) : M unit :=
  modify (fun w =>
    World (surfaces w) (hotkeys w) (alt_release w) (visible w) (draws w) (trace w ++ [e])).

(** ** The native layer *)

(** Modelled from the spec: [openWebview(title, width?, height?)] creates a
    surface and returns its handle. *)
Definition openWebview (t : string) (w h : Z) : M handle :=
  s <- get ;;
  let wv := length (surfaces s) in
  modify (set_surfaces (fun l => l ++ [Surface t w h false "" true])) ;;
  log (E_openWebview t w h wv) ;;
  ret wv.

(** Modelled from the spec: [handle.setVisible(bool)] shows or hides the
    surface. *)
Definition setVisible (wv : handle) (b : bool) : M unit :=
  modify (set_surfaces
    (alter (fun sf => Surface (title sf) (width sf) (height sf) b (html sf) (alive sf)) wv)) ;;
  log (E_setVisible wv b).

(** Modelled from the spec: [handle.setHtml(markup)] replaces the displayed
    content. *)
Definition setHtml (wv : handle) (markup : string) : M unit :=
  modify (set_surfaces
    (alter (fun sf => Surface (title sf) (width sf) (height sf) (shown sf) markup (alive sf)) wv)) ;;
  log (E_setHtml wv markup).

(** Modelled from the spec: [handle.exit()] tears the surface down. *)
Definition exit (wv : handle) : M unit :=
  modify (set_surfaces
    (alter (fun sf => Surface (title sf) (width sf) (height sf) (shown sf) (html sf) false) wv)) ;;
  log (E_exit wv).

(** Modelled from the spec: [registerHotkey(modifier, keyCode, onPress)]
    keeps [onPress] for the lifetime of the process. *)
Definition registerHotkey (m : Modifiers) (key : Z) (cb : closure) : M unit :=
  modify (set_hotkeys (fun l => l ++ [(m, key, cb)])) ;;
  log (E_registerHotkey m key cb).

(** Modelled from the spec: [registerAltRelease(onRelease)] arms
    [onRelease] for the next release of the modifier, once. *)
Definition registerAltRelease (cb : closure) : M unit :=
  modify (set_alt_release (fun l => l ++ [cb])) ;;
  log (E_registerAltRelease cb).

(** The callbacks registered for a key combination, in registration order. *)
Definition matching (m : Modifiers) (key : Z) (l : list (Modifiers * Z * closure))
    : list closure :=
  omap (fun '(m', key', cb) =>
          if decide (m' = m /\ key' = key) then Some cb else None) l.

(** ** The program *)

Definition nl : string := String (Ascii.ascii_of_nat 10) EmptyString.
Definition tab : string := String (Ascii.ascii_of_nat 9) EmptyString.

(** The template literal of lines 12-20, with the text of [Math.random()]
    spliced in. *)
Definition page (r : string) : string :=
  nl +:+ tab +:+ tab +:+ "<html>" +:+
  nl +:+ tab +:+ tab +:+ "<head>" +:+
  nl +:+ tab +:+ tab +:+ "</head>" +:+
  nl +:+ tab +:+ tab +:+ "<body>" +:+
  nl +:+ tab +:+ tab +:+ "<div>Hello World " +:+ r +:+ "</div>" +:+
  nl +:+ tab +:+ tab +:+ "</body>" +:+
  nl +:+ tab +:+ tab +:+ "</html>" +:+
  nl +:+ tab +:+ tab.

Definition read_visible : M bool := fun w => (visible w, w).

(** [visible = b] *)
Definition assign_visible (b : bool) : M unit :=
  modify (set_visible b) ;; log (E_assign_visible b).

(** The arrow function of lines 24-27. *)
Definition onRelease (wv : handle) : M unit :=
  setVisible wv false ;;
  assign_visible false.

Section Program.

(** The text [`${Math.random()}`] produces at its n-th evaluation; the
    floating-point draw itself is not modelled. *)
Variable random_text : nat -> string.

Definition Math_random : M string :=
  fun w => (random_text (draws w), set_draws (S (draws w)) w).

(** The arrow function of lines 11-28. *)
Definition onPress (wv : handle) : M unit :=
  r <- Math_random ;;
  setHtml wv (page r) ;;
  v <- read_visible ;;
  if v then ret tt else
  setVisible wv true ;;
  assign_visible true ;;
  registerAltRelease (OnRelease wv).

(** The native layer calling back into the program. *)
Definition invoke (cb : closure) : M unit :=
  log (E_invoke cb) ;;
  match cb with
  | OnPress wv => onPress wv
  | OnRelease wv => onRelease wv
  end.

Fixpoint invoke_all (cbs : list closure) : M unit :=
  match cbs with
  | [] => ret tt
  | cb :: rest => invoke cb ;; invoke_all rest
  end.

(** Delivery of one event. A hotkey press calls every callback registered
    for that combination. A release of Alt calls the pending one-shot
    callbacks and forgets them: each is invoked exactly once. *)
Definition deliver (e : event) : M unit :=
  match e with
  | HotkeyPressed m key =>
      s <- get ;;
      invoke_all (matching m key (hotkeys s))
  | AltReleased =>
      s <- get ;;
      modify (set_alt_release (fun _ => [])) ;;
      invoke_all (alt_release s)
  end.

Definition step (w : world) (e : event) : world := exec (deliver e) w.

Definition run (evs : list event) (w : world) : world := fold_left step evs w.

(** What a press emits when the guard returns: the callback is entered
    and the page is refreshed with the draw number [i]. *)
Definition refresh (wv : handle) (i : nat) : list effect :=
  [E_invoke (OnPress wv); E_setHtml wv (page (random_text i))].

End Program.

(** The process before the module body runs. *)
Definition process_start : world := World [] [] [] false 0 [].

(** The module body, lines 8-28. *)
Definition main : M unit :=
  wv <- openWebview "test" 400 400 ;;
  assign_visible false ;;
  registerHotkey Alt 0x41 (OnPress wv).

(** The state in which the process waits for its first event. *)
Definition boot : world := exec main process_start.

(** The hotkey-press event of the toggle. *)
Definition Press : event := HotkeyPressed Alt 0x41.

(** ** Observations on states and traces *)

(** The toggle's handler is the one callback registered, on Alt+0x41. *)
Definition installed (wv : handle) (w : world) : Prop :=
  hotkeys w = [(Alt, 0x41%Z, OnPress wv)].

(** What was appended to the trace between the state [w] and a later
    state [w']. *)
Definition emitted (w w' : world) : list effect :=
  drop (length (trace w)) (trace w').

Definition is_surface_call (e : effect) : bool :=
  match e with
  | E_openWebview _ _ _ _ | E_setHtml _ _ | E_setVisible _ _ | E_exit _ => true
  | _ => false
  end.

(** The calls made to the popup-surface service. *)
Definition surface_calls (t : list effect) : list effect :=
  List.filter is_surface_call t.

(** The arguments of the [setVisible] calls, in order. *)
Definition setVisible_calls (t : list effect) : list bool :=
  omap (fun e => match e with E_setVisible _ b => Some b | _ => None end) t.

(** The markups of the [setHtml] calls, in order. *)
Definition setHtml_calls (t : list effect) : list string :=
  omap (fun e => match e with E_setHtml _ m => Some m | _ => None end) t.

(** The callbacks passed to [registerAltRelease], in order. *)
Definition registrations (t : list effect) : list closure :=
  omap (fun e => match e with E_registerAltRelease cb => Some cb | _ => None end) t.

(** The values assigned to [visible], in order. *)
Definition assignments (t : list effect) : list bool :=
  omap (fun e => match e with E_assign_visible b => Some b | _ => None end) t.

(** The life of the release handlers: [true] when one is armed by
    [registerAltRelease], [false] when one is fired by the native layer. *)
Definition lifecycle (t : list effect) : list bool :=
  omap (fun e => match e with
                 | E_registerAltRelease _ => Some true
                 | E_invoke (OnRelease _) => Some false
                 | _ => None
                 end) t.

(** The surface an effect is addressed to, when it has one. *)
Definition target (e : effect) : option handle :=
  match e with
  | E_setHtml wv _ | E_setVisible wv _ | E_exit wv => Some wv
  | _ => None
  end.

(** Effects that neither create nor tear down a surface and that only
    address the surface [wv]. *)
Definition keeps_surface (wv : handle) (e : effect) : bool :=
  match e with
  | E_openWebview _ _ _ _ | E_exit _ => false
  | _ => bool_decide (target e = None \/ target e = Some wv)
  end.

(** [true] is never followed directly by [true]. *)
Fixpoint no_double_true (l : list bool) : bool :=
  match l with
  | [] => true
  | b :: t =>
      match t with
      | [] => true
      | b' :: _ => negb (b && b') && no_double_true t
      end
  end.

(** The list is [first; negb first; first; ...]. *)
Fixpoint alternating (first : bool) (l : list bool) : bool :=
  match l with
  | [] => true
  | b :: t => eqb b first && alternating (negb first) t
  end.

(** The value that continues an alternating list. *)
Definition next_after (first : bool) (l : list bool) : bool :=
  if Nat.even (length l) then first else negb first.

(** The fields of a surface that no method but [exit] may change. *)
Definition fixed_part (sf : surface) : string * Z * Z * bool :=
  (title sf, width sf, height sf, alive sf).

(** [n] complete press/release cycles. *)
Fixpoint cycles (n : nat) : list event :=
  match n with
  | O => []
  | S k => Press :: AltReleased :: cycles k
  end.

(** A trace with the markup of every [setHtml] call blanked. *)
Definition blank_markup (e : effect) : effect :=
  match e with
  | E_setHtml wv _ => E_setHtml wv ""
  | _ => e
  end.

(** A list that alternates from [first] and whose last element, when it
    has one, is [v]. *)
Definition continues (first : bool) (l : list bool) (v : bool) : Prop :=
  alternating first l = true /\ next_after first l = negb v.

(** ** The states the process can be in *)

(** What holds of every state reached from [boot]: one live surface whose
    instructed visibility is [visible], the one hotkey callback, a release
    handler pending exactly while Visible, and a trace in which shows and
    hides, assignments, and arming and firing alternate. *)
Record steady (w : world) : Prop := Steady {
  st_surfaces : exists m, surfaces w = [Surface "test" 400 400 (visible w) m true];
  st_hotkeys : installed 0 w;
  st_pending : alt_release w = if visible w then [OnRelease 0] else [];
  st_trace : exists rest, trace w = E_openWebview "test" 400 400 0 :: rest
                          /\ forallb (keeps_surface 0) rest = true;
  st_assign : continues false (assignments (trace w)) (visible w);
  st_calls : continues true (setVisible_calls (trace w)) (visible w);
  st_life : continues true (lifecycle (trace w)) (visible w)
}.

(** A surface without its markup. *)
Definition outline (sf : surface) : string * Z * Z * bool * bool :=
  (fixed_part sf, shown sf).

(** Two states that differ at most in markup: in the pages the surfaces
    display and in the arguments of the [setHtml] calls of the trace. *)
Record agree (w1 w2 : world) : Prop := Agree {
  ag_surfaces : outline <$> surfaces w1 = outline <$> surfaces w2;
  ag_hotkeys : hotkeys w1 = hotkeys w2;
  ag_pending : alt_release w1 = alt_release w2;
  ag_visible : visible w1 = visible w2;
  ag_draws : draws w1 = draws w2;
  ag_trace : blank_markup <$> trace w1 = blank_markup <$> trace w2;
  ag_calls : setVisible_calls (trace w1) = setVisible_calls (trace w2)
}.

(** The handles returned by the [openWebview] calls, in order. *)
Definition openWebview_calls (t : list effect) : list handle :=
  omap (fun e => match e with E_openWebview _ _ _ wv => Some wv | _ => None end) t.

(** The handles torn down by [exit] calls, in order. *)
Definition exit_calls (t : list effect) : list handle :=
  omap (fun e => match e with E_exit wv => Some wv | _ => None end) t.

(** The part of the process state outside the surface's visibility and
    content, the flag [visible], the pending release handlers and the
    random generator: the registered hotkeys, and the number of surfaces
    with the title, size and liveness of each. *)
Definition untouched (w w' : world) : Prop :=
  hotkeys w' = hotkeys w
  /\ fixed_part <$> surfaces w' = fixed_part <$> surfaces w.

(** A sample of what [Math.random()] may print, for the examples. *)
Definition dice (n : nat) : string :=
  match n with
  | 0 => "0.8414709848078965"
  | 1 => "0.9092974268256817"
  | _ => "0.1411200080598672"
  end.

(** ** Summaries of an event sequence *)

(** The event is a press of the registered combination, Alt+0x41. *)
Definition is_press (e : event) : bool :=
  match e with
  | HotkeyPressed Alt key => Z.eqb key 0x41
  | _ => false
  end.

(** How often the registered combination is pressed in [evs]. *)
Definition presses (evs : list event) : nat := length (List.filter is_press evs).

(** The two-state machine of the specification, section 4.1, with [true]
    for Visible: a press leads to Visible from either state, a release of
    the modifier leads to Hidden, anything else changes nothing. It is
    compared with the program below. *)
Definition spec_toggle (v : bool) (e : event) : bool :=
  match e with
  | AltReleased => false
  | _ => if is_press e then true else v
  end.

(** ** Delivery of events, whatever the program's arrow functions do *)

Section Delivery.

(** The code of the program's arrow functions. *)
Variable body : closure -> M unit.

Definition invoke_by (cb : closure) : M unit :=
  log (E_invoke cb) ;; body cb.

Fixpoint invoke_all_by (cbs : list closure) : M unit :=
  match cbs with
  | [] => ret tt
  | cb :: rest => invoke_by cb ;; invoke_all_by rest
  end.

(** As [deliver]: a hotkey press calls the callbacks registered for the
    combination, a release of Alt calls the pending one-shot callbacks and
    forgets them. *)
Definition deliver_by (e : event) : M unit :=
  match e with
  | HotkeyPressed m key =>
      s <- get ;;
      invoke_all_by (matching m key (hotkeys s))
  | AltReleased =>
      s <- get ;;
      modify (set_alt_release (fun _ => [])) ;;
      invoke_all_by (alt_release s)
  end.

Definition step_by (w : world) (e : event) : world := exec (deliver_by e) w.

Definition run_by (evs : list event) (w : world) : world := fold_left step_by evs w.

End Delivery.

(** The arrow functions of [index.ts]. *)
Definition index_body (random_text : nat -> string) (cb : closure) : M unit :=
  match cb with
  | OnPress wv => onPress random_text wv
  | OnRelease wv => onRelease wv
  end.

(** ** The toggle without the page refresh (first unnamed source file) *)

Module Bare.

(** The arrow function of lines 11-19: as in [index.ts], but the guard
    comes first and there is no [setHtml] call. *)
Definition onPress (wv : handle) : M unit :=
  v <- read_visible ;;
  if v then ret tt else
  setVisible wv true ;;
  assign_visible true ;;
  registerAltRelease (OnRelease wv).

(** The arrow functions of the file; the one of lines 15-18 is
    [onRelease], as in [index.ts]. *)
Definition body (cb : closure) : M unit :=
  match cb with
  | OnPress wv => onPress wv
  | OnRelease wv => onRelease wv
  end.

(** The module body, lines 8-19. *)
Definition main : M unit :=
  wv <- openWebview "test" 400 400 ;;
  assign_visible false ;;
  registerHotkey Alt 0x41 (OnPress wv).

Definition boot : world := exec main process_start.

Definition step : world -> event -> world := step_by body.

Definition run : list event -> world -> world := run_by body.

End Bare.

(** ** The press-to-flip variant (the program after the README text) *)

Module Flip.

(** The arrow function of lines 110-113:
    [wv.setVisible(!visible); visible = !visible]. *)
Definition onPress (wv : handle) : M unit :=
  v <- read_visible ;;
  setVisible wv (negb v) ;;
  v' <- read_visible ;;
  assign_visible (negb v').

(** The file has the one arrow function; it registers no release
    callback, so the second case is never called. *)
Definition body (cb : closure) : M unit :=
  match cb with
  | OnPress wv => onPress wv
  | OnRelease _ => ret tt
  end.

(** The module body, lines 107-113. *)
Definition main : M unit :=
  wv <- openWebview "test" 200 400 ;;
  assign_visible false ;;
  registerHotkey Alt 0x41 (OnPress wv).

Definition boot : world := exec main process_start.

Definition step : world -> event -> world := step_by body.

Definition run : list event -> world -> world := run_by body.

End Flip.

(** ** The JavaScript host around the process: console and timers *)

(** The arrow function passed to [setTimeout] in the third unnamed file
    (lines 45-47), with the handle [wv] it captures. *)
Inductive timer_closure : Type :=
| ExitLater (wv : handle).

(** The process state together with what [console.log] has printed, the
    time in milliseconds since the process started, and the timers set by
    [setTimeout] and not yet run, each with the time it is due, earliest
    first. *)
Record host : Type := Host {
  proc : world;
  console : list string;
  clock : nat;
  timers : list (nat * timer_closure)
}.

(** What the host reacts to: an event of the native layer, or the passing
    of [ms] milliseconds. *)
Inductive input : Type :=
| Native (e : event)
| Elapsed (ms : nat).

Definition JS (A : Type) : Type := host -> A * host.

Definition ret_js {A} (a : A) : JS A := fun h => (a, h).

Definition bind_js {A B} (c : JS A) (k : A -> JS B) : JS B :=
  fun h => let (a, h1) := c h in k a h1.

Definition get_js : JS host := fun h => (h, h).

Definition put_js (h : host) : JS unit := fun _ => (tt, h).

Definition exec_js {A} (c : JS A) (h : host) : host := snd (c h).

Declare Scope host_scope.
Delimit Scope host_scope with host.
Notation "x <- c ;; k" := (bind_js c (fun x => k))
  (at level 100, c at next level, right associativity) : host_scope.
Notation "c ;; k" := (bind_js c (fun _ => k))
  (at level 100, right associativity) : host_scope.

(** A step of the process, run inside the host. *)
Definition lift {A} (c : M A) : JS A :=
  fun h => let (a, w) := c (proc h) in (a, Host w (console h) (clock h) (timers h)).

(** [console.log(s)] *)
Definition console_log (s : string) : JS unit :=
  fun h => (tt, Host (proc h) (console h ++ [s]) (clock h) (timers h)).

(** A timer joins the queue behind the timers due no later than it. *)
Fixpoint enqueue (t : nat * timer_closure) (q : list (nat * timer_closure))
    : list (nat * timer_closure) :=
  match q with
  | [] => [t]
  | u :: rest => if (t.1 <? u.1)%nat then t :: q else u :: enqueue t rest
  end.

(** [setTimeout(cb, delay)]: [cb] is due [delay] milliseconds from now.
    The identifier JavaScript returns is not used by the programs. *)
Definition setTimeout (cb : timer_closure) (delay : nat) : JS unit :=
  fun h => (tt, Host (proc h) (console h) (clock h)
                     (enqueue (clock h + delay, cb) (timers h))).

Section HostDelivery.

(** The code of the program's arrow functions. *)
Variable body : closure -> JS unit.
Variable timer_body : timer_closure -> JS unit.

Definition invoke_js (cb : closure) : JS unit :=
  (lift (log (E_invoke cb)) ;; body cb)%host.

Fixpoint invoke_all_js (cbs : list closure) : JS unit :=
  match cbs with
  | [] => ret_js tt
  | cb :: rest => (invoke_js cb ;; invoke_all_js rest)%host
  end.

Fixpoint fire_all (ts : list (nat * timer_closure)) : JS unit :=
  match ts with
  | [] => ret_js tt
  | t :: rest => (timer_body t.2 ;; fire_all rest)%host
  end.

(** Native events are delivered as by [deliver]. When time passes, the
    timers that have become due leave the queue and are run, earliest
    first, each once. *)
Definition deliver_js (i : input) : JS unit :=
  match i with
  | Native (HotkeyPressed m key) =>
      (h <- get_js ;;
       invoke_all_js (matching m key (hotkeys (proc h))))%host
  | Native AltReleased =>
      (h <- get_js ;;
       lift (modify (set_alt_release (fun _ => []))) ;;
       invoke_all_js (alt_release (proc h)))%host
  | Elapsed ms =>
      (h <- get_js ;;
       put_js (Host (proc h) (console h) (clock h + ms)
                    (List.filter (fun t => (clock h + ms <? t.1)%nat) (timers h))) ;;
       fire_all (List.filter (fun t => (t.1 <=? clock h + ms)%nat) (timers h)))%host
  end.

Definition step_js (h : host) (i : input) : host := exec_js (deliver_js i) h.

Definition run_js (ins : list input) (h : host) : host := fold_left step_js ins h.

End HostDelivery.

(** The host before the module body runs. *)
Definition host_start : host := Host process_start [] 0 [].

(** The native events among the inputs. *)
Definition natives (ins : list input) : list event :=
  omap (fun i => match i with Native e => Some e | Elapsed _ => None end) ins.

(** ** The toggle that logs the release (second unnamed source file) *)

Module Logged.

(** The arrow function of lines 34-38. *)
Definition onRelease (wv : handle) : JS unit :=
  (console_log "alt released" ;;
   lift (setVisible wv false) ;;
   lift (assign_visible false))%host.

(** The arrow function of lines 30-39. *)
Definition onPress (wv : handle) : JS unit :=
  (v <- lift read_visible ;;
   if v then ret_js tt else
   lift (setVisible wv true) ;;
   lift (assign_visible true) ;;
   lift (registerAltRelease (OnRelease wv)))%host.

Definition body (cb : closure) : JS unit :=
  match cb with
  | OnPress wv => onPress wv
  | OnRelease wv => onRelease wv
  end.

(** The file sets no timer. *)
Definition timer_body (t : timer_closure) : JS unit := ret_js tt.

(** The module body, lines 27-39. *)
Definition main : JS unit :=
  (wv <- lift (openWebview "test" 200 400) ;;
   lift (assign_visible false) ;;
   lift (registerHotkey Alt 0x41 (OnPress wv)))%host.

Definition boot : host := exec_js main host_start.

Definition step : host -> input -> host := step_js body timer_body.

Definition run : list input -> host -> host := run_js body timer_body.

End Logged.

(** ** A surface per press, closed by a timer (third unnamed source file) *)

Module Timed.

Section Defaults.

(** The size the native layer gives a surface opened without one; it is
    not in the sources. *)
Variables default_width default_height : Z.

(** The arrow function of lines 42-48. It captures no surface: the handle
    in the name [OnPress] under which it is registered is a placeholder. *)
Definition onPress : JS unit :=
  (wv <- lift (openWebview "test" default_width default_height) ;;
   setTimeout (ExitLater wv) 2500)%host.

Definition body (cb : closure) : JS unit :=
  match cb with
  | OnPress _ => onPress
  | OnRelease _ => ret_js tt
  end.

(** The arrow function of lines 45-47. *)
Definition timer_body (t : timer_closure) : JS unit :=
  match t with
  | ExitLater wv => lift (exit wv)
  end.

(** The module body, lines 42-48. *)
Definition main : JS unit :=
  lift (registerHotkey Alt 0x41 (OnPress 0)).

Definition boot : host := exec_js main host_start.

Definition step : host -> input -> host := step_js body timer_body.

Definition run : list input -> host -> host := run_js body timer_body.

End Defaults.

End Timed.

(** The handles of the surfaces that are alive, in order, the first
    surface of the list having handle [i]. *)
Fixpoint live_from (i : handle) (sfs : list surface) : list handle :=
  match sfs with
  | [] => []
  | sf :: rest => if alive sf then i :: live_from (S i) rest else live_from (S i) rest
  end.

Definition live (sfs : list surface) : list handle := live_from 0 sfs.

(** The times, in milliseconds from [now], at which the inputs press the
    registered combination. *)
Fixpoint press_times_from (now : nat) (ins : list input) : list nat :=
  match ins with
  | [] => []
  | Elapsed ms :: rest => press_times_from (now + ms) rest
  | Native e :: rest =>
      if is_press e then now :: press_times_from now rest
      else press_times_from now rest
  end.

Definition press_times (ins : list input) : list nat := press_times_from 0 ins.

(** The timers that close the surfaces [k], [k+1], ... at the times [ds]. *)
Fixpoint queue (k : handle) (ds : list nat) : list (nat * timer_closure) :=
  match ds with
  | [] => []
  | d :: rest => (d, ExitLater k) :: queue (S k) rest
  end.

(** A state of the third file after presses at the times [ts1 ++ ts2]:
    the surfaces of the presses [ts1] have been closed, in order, those of
    the presses [ts2] are alive with their timers pending, nothing was
    ever shown. *)
Record timed_inv (dw dh : Z) (ts1 ts2 : list nat) (h : host) : Prop := TimedInv {
  ti_sorted : StronglySorted le (ts1 ++ ts2);
  ti_past : Forall (fun t => t <= clock h) ts2;
  ti_closed : Forall (fun t => t + 2500 <= clock h) ts1;
  ti_open : Forall (fun t => clock h < t + 2500) ts2;
  ti_surfaces : surfaces (proc h)
                = repeat (Surface "test" dw dh false "" false) (length ts1)
                  ++ repeat (Surface "test" dw dh false "" true) (length ts2);
  ti_timers : timers h = queue (length ts1) ((fun t => t + 2500) <$> ts2);
  ti_hotkeys : installed 0 (proc h);
  ti_pending : alt_release (proc h) = [];
  ti_opens : openWebview_calls (trace (proc h)) = seq 0 (length (ts1 ++ ts2));
  ti_exits : exit_calls (trace (proc h)) = seq 0 (length ts1);
  ti_quiet : setVisible_calls (trace (proc h)) = []
             /\ setHtml_calls (trace (proc h)) = []
             /\ console h = []
}.

(** The number of [false] in a list of [setVisible] arguments. *)
Definition hides (l : list bool) : nat := length (List.filter negb l).

(** The toggle is wired for the surface [wv]: its press callback is the
    one registered, and a release callback is pending exactly while
    [visible] is [true]. *)
Definition toggling (wv : handle) (w : world) : Prop :=
  installed wv w
  /\ alt_release w = (if visible w then [OnRelease wv] else []).

(** The total time that passes in a sequence of inputs. *)
Definition elapsed (ins : list input) : nat :=
  list_sum (omap (fun i => match i with Elapsed ms => Some ms | Native _ => None end) ins).

(** ** Comparing the variants with [index.ts] *)

Definition is_refresh (e : effect) : bool :=
  match e with
  | E_setHtml _ _ => true
  | _ => false
  end.

(** A trace without its [setHtml] calls. *)
Definition without_refresh (t : list effect) : list effect :=
  List.filter (fun e => negb (is_refresh e)) t.

(** A state [w] of [index.ts] and a state [b] of the toggle without
    refresh that differ only by the refreshes: by the displayed markup,
    the draws, and the [setHtml] calls of the trace. *)
Record same_toggle (w b : world) : Prop := SameToggle {
  sm_surfaces : outline <$> surfaces w = outline <$> surfaces b;
  sm_hotkeys : hotkeys w = hotkeys b;
  sm_pending : alt_release w = alt_release b;
  sm_visible : visible w = visible b;
  sm_trace : without_refresh (trace w) = trace b;
  sm_plain : draws b = 0 /\ html <$> surfaces b = (fun _ => "") <$> surfaces b
}.

(** Pending callbacks that are all release closures, as
    [registerAltRelease] is only ever given the arrow function of lines
    24-27. *)
Definition releases_only (cbs : list closure) : Prop :=
  Forall (fun cb => match cb with
                    | OnRelease _ => True
                    | OnPress _ => False
                    end) cbs.

(** ** The steps of the toggle, as equations *)

Lemma boot_eq :
  boot = World [Surface "test" 400 400 false "" true]
               [(Alt, 0x41%Z, OnPress 0)] [] false 0
               [E_openWebview "test" 400 400 0; E_assign_visible false;
                E_registerHotkey Alt 0x41 (OnPress 0)].
Proof. reflexivity. Qed.

Section Steps.

Variable random_text : nat -> string.

Local Abbreviation step := (step random_text).
Local Abbreviation run := (run random_text).

Lemma matching_installed (cb : closure) :
  matching Alt 0x41 [(Alt, 0x41%Z, cb)] = [cb].
Proof. reflexivity. Qed.

(** A press of the hotkey runs the one registered callback. *)
Lemma step_press (w : world) (wv : handle) :
  installed wv w -> step w Press = exec (invoke random_text (OnPress wv)) w.
Proof.
  unfold installed, step, exec, deliver, Press, bind, get. intros ->.
  rewrite matching_installed. unfold invoke_all, bind, ret.
  destruct (invoke random_text (OnPress wv) w). reflexivity.
Qed.

(** A press while Hidden: refresh, show, remember, arm. *)
Lemma step_press_hidden (w : world) (wv : handle) :
  installed wv w -> visible w = false ->
  step w Press =
    World (alter (fun sf => Surface (title sf) (width sf) (height sf) true
                              (page (random_text (draws w))) (alive sf)) wv (surfaces w))
          (hotkeys w) (alt_release w ++ [OnRelease wv]) true (S (draws w))
          (trace w ++ [E_invoke (OnPress wv);
                       E_setHtml wv (page (random_text (draws w)));
                       E_setVisible wv true; E_assign_visible true;
                       E_registerAltRelease (OnRelease wv)]).
Proof.
  intros Hk Hv. rewrite (step_press w wv Hk).
  destruct w as [sfs hk ar v d t]. simpl in Hv. subst v.
  unfold exec. cbn.
  rewrite <- !app_assoc. simpl. f_equal.
  rewrite list_alter_alter_eq. reflexivity.
Qed.

(** A press while Visible: refresh, then the guard returns. *)
Lemma step_press_visible (w : world) (wv : handle) :
  installed wv w -> visible w = true ->
  step w Press =
    World (alter (fun sf => Surface (title sf) (width sf) (height sf) (shown sf)
                              (page (random_text (draws w))) (alive sf)) wv (surfaces w))
          (hotkeys w) (alt_release w) true (S (draws w))
          (trace w ++ [E_invoke (OnPress wv);
                       E_setHtml wv (page (random_text (draws w)))]).
Proof.
  intros Hk Hv. rewrite (step_press w wv Hk).
  destruct w as [sfs hk ar v d t]. simpl in Hv. subst v.
  unfold exec. cbn.
  rewrite <- !app_assoc. reflexivity.
Qed.

(** The body of the release handler, run by the native layer. *)
Lemma exec_invoke_release (w : world) (wv : handle) :
  exec (invoke random_text (OnRelease wv)) w =
    World (alter (fun sf => Surface (title sf) (width sf) (height sf) false
                              (html sf) (alive sf)) wv (surfaces w))
          (hotkeys w) (alt_release w) false (draws w)
          (trace w ++ [E_invoke (OnRelease wv); E_setVisible wv false;
                       E_assign_visible false]).
Proof.
  destruct w as [sfs hk ar v d t]. unfold exec. cbn.
  rewrite <- !app_assoc. reflexivity.
Qed.

(** A release of Alt with one handler pending. *)
Lemma step_release_armed (w : world) (wv : handle) :
  alt_release w = [OnRelease wv] ->
  step w AltReleased =
    World (alter (fun sf => Surface (title sf) (width sf) (height sf) false
                              (html sf) (alive sf)) wv (surfaces w))
          (hotkeys w) [] false (draws w)
          (trace w ++ [E_invoke (OnRelease wv); E_setVisible wv false;
                       E_assign_visible false]).
Proof.
  destruct w as [sfs hk ar v d t]. simpl. intros ->.
  unfold step, exec. cbn.
  rewrite <- !app_assoc. reflexivity.
Qed.

(** A release of Alt with nothing pending. *)
Lemma step_release_idle (w : world) :
  alt_release w = [] -> step w AltReleased = w.
Proof.
  destruct w as [sfs hk ar v d t]. simpl. intros ->. reflexivity.
Qed.

(** Any other key combination has no callback. *)
Lemma step_other_hotkey (w : world) (wv : handle) (m : Modifiers) (key : Z) :
  installed wv w -> (m, key) <> (Alt, 0x41%Z) ->
  step w (HotkeyPressed m key) = w.
Proof.
  destruct w as [sfs hk ar v d t]. unfold installed. simpl. intros -> Hne.
  unfold step, exec, deliver, bind, get. simpl.
  destruct (decide (Alt = m /\ 65%Z = key)) as [[<- <-]|]; [congruence|reflexivity].
Qed.

End Steps.

(** ** Lists of observations *)

Lemma shown_alter (l : list surface) (wv : handle) (b : bool) (f : surface -> string) :
  shown <$> alter (fun sf => Surface (title sf) (width sf) (height sf) b (f sf) (alive sf))
              wv l !! wv
  = (fun _ => b) <$> l !! wv.
Proof. rewrite list_lookup_alter_eq. destruct (l !! wv); reflexivity. Qed.

Lemma html_alter (l : list surface) (wv : handle) (m : string) (f : surface -> bool) :
  html <$> alter (fun sf => Surface (title sf) (width sf) (height sf) (f sf) m (alive sf))
             wv l !! wv
  = (fun _ => m) <$> l !! wv.
Proof. rewrite list_lookup_alter_eq. destruct (l !! wv); reflexivity. Qed.

Lemma emitted_app (w w' : world) (l : list effect) :
  trace w' = trace w ++ l -> emitted w w' = l.
Proof. unfold emitted. intros ->. apply drop_app_length. Qed.

Lemma next_after_cons (first b : bool) (l : list bool) :
  next_after first (b :: l) = next_after (negb first) l.
Proof.
  unfold next_after. simpl length. rewrite Nat.even_succ, <- Nat.negb_even.
  destruct (Nat.even (length l)), first; reflexivity.
Qed.

Lemma next_after_snoc (first b : bool) (l : list bool) :
  next_after first (l ++ [b]) = negb (next_after first l).
Proof.
  revert first. induction l as [|a l IH]; intros first.
  - destruct first; reflexivity.
  - simpl app. rewrite !next_after_cons. apply IH.
Qed.

Lemma alternating_snoc (first : bool) (l : list bool) :
  alternating first l = true ->
  alternating first (l ++ [next_after first l]) = true.
Proof.
  revert first. induction l as [|a l IH]; intros first; simpl.
  - intros _. destruct first; reflexivity.
  - intros H. apply andb_prop in H as [-> H]. simpl.
    rewrite next_after_cons. apply IH, H.
Qed.

Lemma alternating_no_double_true (first : bool) (l : list bool) :
  alternating first l = true -> no_double_true l = true.
Proof.
  revert first. induction l as [|a l IH]; intros first; [reflexivity|].
  simpl. intros H. apply andb_prop in H as [Ha H].
  destruct l as [|b l]; [reflexivity|].
  rewrite (IH _ H). simpl in H. apply andb_prop in H as [Hb _].
  destruct a, b, first; simpl in *; congruence.
Qed.

Lemma continues_snoc (first : bool) (l : list bool) (v : bool) :
  continues first l v -> continues first (l ++ [negb v]) (negb v).
Proof.
  intros [Ha Hn]. split.
  - rewrite <- Hn. apply alternating_snoc, Ha.
  - rewrite next_after_snoc, Hn. reflexivity.
Qed.

(** ** Reachable states *)

Lemma steady_boot : steady boot.
Proof.
  rewrite boot_eq. split; simpl; try (split; reflexivity); try reflexivity.
  - eexists. reflexivity.
  - eexists. split; reflexivity.
Qed.

Section Reachable.

Variable random_text : nat -> string.

Local Abbreviation step := (step random_text).
Local Abbreviation run := (run random_text).

Lemma steady_press_hidden (w : world) :
  steady w -> visible w = false -> steady (step w Press).
Proof.
  intros [[m Hs] Hk Hp [rest [Ht Hq]] Ha Hc Hl] Hv.
  rewrite (step_press_hidden _ w 0 Hk Hv). rewrite Hv in *.
  split; simpl.
  - rewrite Hs. eexists. reflexivity.
  - exact Hk.
  - rewrite Hp. reflexivity.
  - rewrite Ht. eexists. split; [reflexivity|].
    rewrite forallb_app, Hq. reflexivity.
  - unfold assignments in *. rewrite omap_app. apply (continues_snoc _ _ false), Ha.
  - unfold setVisible_calls in *. rewrite omap_app. apply (continues_snoc _ _ false), Hc.
  - unfold lifecycle in *. rewrite omap_app. apply (continues_snoc _ _ false), Hl.
Qed.

Lemma steady_press_visible (w : world) :
  steady w -> visible w = true -> steady (step w Press).
Proof.
  intros [[m Hs] Hk Hp [rest [Ht Hq]] Ha Hc Hl] Hv.
  rewrite (step_press_visible _ w 0 Hk Hv). rewrite Hv in *.
  split; simpl.
  - rewrite Hs. eexists. reflexivity.
  - exact Hk.
  - exact Hp.
  - rewrite Ht. eexists. split; [reflexivity|].
    rewrite forallb_app, Hq. reflexivity.
  - unfold assignments in *. rewrite omap_app, app_nil_r. exact Ha.
  - unfold setVisible_calls in *. rewrite omap_app, app_nil_r. exact Hc.
  - unfold lifecycle in *. rewrite omap_app, app_nil_r. exact Hl.
Qed.

Lemma steady_release_visible (w : world) :
  steady w -> visible w = true -> steady (step w AltReleased).
Proof.
  intros [[m Hs] Hk Hp [rest [Ht Hq]] Ha Hc Hl] Hv.
  rewrite Hv in *. rewrite (step_release_armed _ w 0 Hp).
  split; simpl.
  - rewrite Hs. eexists. reflexivity.
  - exact Hk.
  - reflexivity.
  - rewrite Ht. eexists. split; [reflexivity|].
    rewrite forallb_app, Hq. reflexivity.
  - unfold assignments in *. rewrite omap_app. apply (continues_snoc _ _ true), Ha.
  - unfold setVisible_calls in *. rewrite omap_app. apply (continues_snoc _ _ true), Hc.
  - unfold lifecycle in *. rewrite omap_app. apply (continues_snoc _ _ true), Hl.
Qed.

Lemma steady_step (w : world) (e : event) : steady w -> steady (step w e).
Proof.
  intros Hw. destruct e as [m key|].
  - destruct (decide ((m, key) = (Alt, 0x41%Z))) as [Heq|Hne].
    + injection Heq as -> ->. change (HotkeyPressed Alt 65) with Press.
      destruct (visible w) eqn:Hv.
      * apply steady_press_visible; assumption.
      * apply steady_press_hidden; assumption.
    + rewrite (step_other_hotkey _ w 0 m key (st_hotkeys w Hw) Hne). exact Hw.
  - destruct (visible w) eqn:Hv.
    + apply steady_release_visible; assumption.
    + rewrite step_release_idle; [exact Hw|].
      rewrite (st_pending w Hw), Hv. reflexivity.
Qed.

Lemma steady_run (evs : list event) (w : world) : steady w -> steady (run evs w).
Proof.
  revert w. induction evs as [|e evs IH]; intros w Hw; [exact Hw|].
  simpl. apply IH, steady_step, Hw.
Qed.

Lemma steady_reachable (evs : list event) : steady (run evs boot).
Proof. apply steady_run, steady_boot. Qed.

End Reachable.

(** ** The toggle's transitions *)

Section Transitions.

Variable random_text : nat -> string.

Local Abbreviation step := (step random_text).
Local Abbreviation run := (run random_text).

Local Abbreviation refresh := (refresh random_text).

Lemma refresh_quiet (wv : handle) (l : list nat) :
  setVisible_calls (flat_map (refresh wv) l) = []
  /\ registrations (flat_map (refresh wv) l) = []
  /\ assignments (flat_map (refresh wv) l) = [].
Proof. induction l as [|i l IH]; [repeat split|exact IH]. Qed.

(** Any number of presses in a row while Visible. *)
Lemma presses_visible (n : nat) (w : world) (wv : handle) :
  installed wv w -> visible w = true ->
  trace (run (repeat Press n) w) = trace w ++ flat_map (refresh wv) (seq (draws w) n)
  /\ visible (run (repeat Press n) w) = true
  /\ alt_release (run (repeat Press n) w) = alt_release w
  /\ hotkeys (run (repeat Press n) w) = hotkeys w.
Proof.
  revert w. induction n as [|n IH]; intros w Hk Hv.
  - simpl. rewrite app_nil_r. auto.
  - simpl repeat. change (run (Press :: repeat Press n) w)
      with (run (repeat Press n) (step w Press)).
    pose proof (step_press_visible random_text w wv Hk Hv) as Hs.
    destruct (IH (step w Press)) as (Ht & Hv' & Hp & Hh).
    + unfold installed. rewrite Hs. exact Hk.
    + rewrite Hs. reflexivity.
    + rewrite Ht, Hv', Hp, Hh, Hs. simpl. rewrite <- app_assoc. auto.
Qed.

(** C1. However often the hotkey is pressed while the toggle is Visible,
    nothing is shown again: the presses make no [setVisible] call,
    register no release handler (the pending ones stay as they were),
    assign nothing to [visible], and leave the toggle Visible; all they
    emit is one page refresh each. And in every run of the program, the
    values assigned to [visible] never have [true] directly after
    [true]. *)
Theorem press_while_visible_shows_nothing (w : world) (wv : handle) (n : nat) :
  installed wv w -> visible w = true ->
  (emitted w (run (repeat Press n) w) = flat_map (refresh wv) (seq (draws w) n)
   /\ setVisible_calls (emitted w (run (repeat Press n) w)) = []
   /\ registrations (emitted w (run (repeat Press n) w)) = []
   /\ assignments (emitted w (run (repeat Press n) w)) = []
   /\ alt_release (run (repeat Press n) w) = alt_release w
   /\ visible (run (repeat Press n) w) = true)
  /\ forall evs : list event,
       no_double_true (assignments (trace (run evs boot))) = true.
Proof.
  intros Hk Hv. split.
  - destruct (presses_visible n w wv Hk Hv) as (Ht & Hv' & Hp & _).
    rewrite (emitted_app _ _ _ Ht).
    destruct (refresh_quiet wv (seq (draws w) n)) as (H1 & H2 & H3).
    auto 10.
  - intros evs. destruct (steady_reachable random_text evs) as [_ _ _ _ [Ha _] _ _].
    exact (alternating_no_double_true _ _ Ha).
Qed.

(** C3. A press while Hidden refreshes the page, calls [setVisible(true)]
    once, sets [visible], and registers exactly one release handler: the
    pending handlers grow by the one closure of lines 24-27. *)
Theorem press_while_hidden_shows (w : world) (wv : handle) :
  installed wv w -> visible w = false ->
  emitted w (step w Press) =
    [E_invoke (OnPress wv); E_setHtml wv (page (random_text (draws w)));
     E_setVisible wv true; E_assign_visible true;
     E_registerAltRelease (OnRelease wv)]
  /\ setVisible_calls (emitted w (step w Press)) = [true]
  /\ registrations (emitted w (step w Press)) = [OnRelease wv]
  /\ visible (step w Press) = true
  /\ alt_release (step w Press) = alt_release w ++ [OnRelease wv]
  /\ shown <$> surfaces (step w Press) !! wv = (fun _ => true) <$> surfaces w !! wv.
Proof.
  intros Hk Hv. pose proof (step_press_hidden random_text w wv Hk Hv) as Hs.
  assert (He : emitted w (step w Press) =
    [E_invoke (OnPress wv); E_setHtml wv (page (random_text (draws w)));
     E_setVisible wv true; E_assign_visible true;
     E_registerAltRelease (OnRelease wv)]).
  { apply emitted_app. rewrite Hs. reflexivity. }
  rewrite He, Hs. repeat split. apply shown_alter.
Qed.

(** C4. The release handler, whenever the native layer runs it, calls
    [setVisible(false)] once and sets [visible] to [false]; and a release
    of Alt with that handler pending runs it exactly once, which leaves
    the toggle Hidden with nothing pending. *)
Theorem release_handler_hides (w : world) (wv : handle) :
  (emitted w (exec (invoke random_text (OnRelease wv)) w) =
     [E_invoke (OnRelease wv); E_setVisible wv false; E_assign_visible false]
   /\ visible (exec (invoke random_text (OnRelease wv)) w) = false
   /\ shown <$> surfaces (exec (invoke random_text (OnRelease wv)) w) !! wv
      = (fun _ => false) <$> surfaces w !! wv)
  /\ (alt_release w = [OnRelease wv] ->
      surface_calls (emitted w (step w AltReleased)) = [E_setVisible wv false]
      /\ setVisible_calls (emitted w (step w AltReleased)) = [false]
      /\ visible (step w AltReleased) = false
      /\ alt_release (step w AltReleased) = []
      /\ shown <$> surfaces (step w AltReleased) !! wv
         = (fun _ => false) <$> surfaces w !! wv).
Proof.
  split.
  - pose proof (exec_invoke_release random_text w wv) as Hs.
    rewrite (emitted_app w _ [E_invoke (OnRelease wv); E_setVisible wv false;
                              E_assign_visible false]) by (rewrite Hs; reflexivity).
    rewrite Hs. repeat split. apply shown_alter.
  - intros Hp. pose proof (step_release_armed random_text w wv Hp) as Hs.
    rewrite (emitted_app w _ [E_invoke (OnRelease wv); E_setVisible wv false;
                              E_assign_visible false]) by (rewrite Hs; reflexivity).
    rewrite Hs. repeat split. apply shown_alter.
Qed.

(** C9. Every press of the hotkey, Visible or not, calls [setHtml] exactly
    once with the page built from the next draw, and does so first, ahead
    of the guard; a press while Visible therefore still makes one call to
    the surface. *)
Theorem press_always_refreshes (w : world) (wv : handle) :
  installed wv w ->
  setHtml_calls (emitted w (step w Press)) = [page (random_text (draws w))]
  /\ take 2 (emitted w (step w Press)) = refresh wv (draws w)
  /\ html <$> surfaces (step w Press) !! wv
     = (fun _ => page (random_text (draws w))) <$> surfaces w !! wv
  /\ (visible w = true ->
      surface_calls (emitted w (step w Press))
      = [E_setHtml wv (page (random_text (draws w)))]).
Proof.
  intros Hk. destruct (visible w) eqn:Hv.
  - pose proof (step_press_visible random_text w wv Hk Hv) as Hs.
    rewrite (emitted_app w _ (refresh wv (draws w))) by (rewrite Hs; reflexivity).
    rewrite Hs. repeat split. apply html_alter.
  - pose proof (step_press_hidden random_text w wv Hk Hv) as Hs.
    rewrite (emitted_app w _
      [E_invoke (OnPress wv); E_setHtml wv (page (random_text (draws w)));
       E_setVisible wv true; E_assign_visible true;
       E_registerAltRelease (OnRelease wv)]) by (rewrite Hs; reflexivity).
    rewrite Hs. repeat split; [apply html_alter|discriminate].
Qed.

End Transitions.

(** ** Scenarios and cycles *)

Section Scenarios.

Variable random_text : nat -> string.

Local Abbreviation step := (step random_text).
Local Abbreviation run := (run random_text).

Lemma press_hidden_facts (w : world) (wv : handle) :
  installed wv w -> visible w = false ->
  trace (step w Press) =
    trace w ++ [E_invoke (OnPress wv); E_setHtml wv (page (random_text (draws w)));
                E_setVisible wv true; E_assign_visible true;
                E_registerAltRelease (OnRelease wv)]
  /\ visible (step w Press) = true
  /\ alt_release (step w Press) = alt_release w ++ [OnRelease wv]
  /\ installed wv (step w Press)
  /\ draws (step w Press) = S (draws w).
Proof.
  intros Hk Hv. unfold installed.
  rewrite (step_press_hidden random_text w wv Hk Hv). auto.
Qed.

Lemma press_visible_facts (w : world) (wv : handle) :
  installed wv w -> visible w = true ->
  trace (step w Press) =
    trace w ++ [E_invoke (OnPress wv); E_setHtml wv (page (random_text (draws w)))]
  /\ visible (step w Press) = true
  /\ alt_release (step w Press) = alt_release w
  /\ installed wv (step w Press)
  /\ draws (step w Press) = S (draws w).
Proof.
  intros Hk Hv. unfold installed.
  rewrite (step_press_visible random_text w wv Hk Hv). auto.
Qed.

Lemma release_armed_facts (w : world) (wv : handle) :
  alt_release w = [OnRelease wv] ->
  trace (step w AltReleased) =
    trace w ++ [E_invoke (OnRelease wv); E_setVisible wv false; E_assign_visible false]
  /\ visible (step w AltReleased) = false
  /\ alt_release (step w AltReleased) = []
  /\ hotkeys (step w AltReleased) = hotkeys w
  /\ draws (step w AltReleased) = draws w.
Proof.
  intros Hp. rewrite (step_release_armed random_text w wv Hp). auto.
Qed.

(** C2, as the program has it. From a Hidden state with nothing pending:
    the first press makes the toggle Visible with one [setVisible(true)]
    call; a second press leaves it Visible and makes exactly one call to
    the surface, the [setHtml] refresh, but no [setVisible] call and no
    registration; the release then makes the toggle Hidden with one
    [setVisible(false)] call. Over the whole scenario the surface is
    shown once and hidden once. *)
Theorem scenario_press_press_release (w : world) (wv : handle) :
  installed wv w -> visible w = false -> alt_release w = [] ->
  (visible (run [Press] w) = true
   /\ setVisible_calls (emitted w (run [Press] w)) = [true])
  /\ (visible (run [Press; Press] w) = true
      /\ surface_calls (emitted (run [Press] w) (run [Press; Press] w))
         = [E_setHtml wv (page (random_text (S (draws w))))]
      /\ setVisible_calls (emitted (run [Press] w) (run [Press; Press] w)) = []
      /\ registrations (emitted (run [Press] w) (run [Press; Press] w)) = []
      /\ alt_release (run [Press; Press] w) = [OnRelease wv])
  /\ (visible (run [Press; Press; AltReleased] w) = false
      /\ setVisible_calls (emitted (run [Press; Press] w)
                                   (run [Press; Press; AltReleased] w)) = [false]
      /\ alt_release (run [Press; Press; AltReleased] w) = [])
  /\ setVisible_calls (emitted w (run [Press; Press; AltReleased] w)) = [true; false].
Proof.
  intros Hk Hv Hp.
  change (run [Press] w) with (step w Press).
  change (run [Press; Press] w) with (step (step w Press) Press).
  change (run [Press; Press; AltReleased] w)
    with (step (step (step w Press) Press) AltReleased).
  destruct (press_hidden_facts w wv Hk Hv) as (Ht1 & Hv1 & Hp1 & Hk1 & Hd1).
  rewrite Hp in Hp1. simpl in Hp1.
  destruct (press_visible_facts _ wv Hk1 Hv1) as (Ht2 & Hv2 & Hp2 & Hk2 & Hd2).
  rewrite Hp1 in Hp2. rewrite Hd1 in Ht2.
  destruct (release_armed_facts _ wv Hp2) as (Ht3 & Hv3 & Hp3 & _ & _).
  rewrite (emitted_app _ _ _ Ht1), (emitted_app _ _ _ Ht2), (emitted_app _ _ _ Ht3).
  rewrite Ht2, Ht1, <- !app_assoc in Ht3.
  rewrite (emitted_app _ _ _ Ht3).
  repeat split; assumption.
Qed.

Lemma cycle_hidden (w : world) :
  steady w -> visible w = false ->
  steady (run [Press; AltReleased] w) /\ visible (run [Press; AltReleased] w) = false.
Proof.
  intros Hw Hv. split; [apply steady_run, Hw|].
  change (run [Press; AltReleased] w) with (step (step w Press) AltReleased).
  destruct (press_hidden_facts w 0 (st_hotkeys w Hw) Hv) as (_ & _ & Hp1 & _).
  rewrite (st_pending w Hw), Hv in Hp1. simpl in Hp1.
  destruct (release_armed_facts _ 0 Hp1) as (_ & Hv3 & _). exact Hv3.
Qed.

Lemma cycles_hidden (n : nat) (w : world) :
  steady w -> visible w = false -> visible (run (cycles n) w) = false.
Proof.
  revert w. induction n as [|n IH]; intros w Hw Hv; [exact Hv|].
  change (run (cycles (S n)) w) with (run (cycles n) (run [Press; AltReleased] w)).
  destruct (cycle_hidden w Hw Hv) as [Hw' Hv']. apply IH; assumption.
Qed.

Lemma steady_pending_le (w : world) : steady w -> length (alt_release w) <= 1.
Proof. intros Hw. rewrite (st_pending w Hw). destruct (visible w); simpl; lia. Qed.

(** C5. From the state the process boots into, where [visible] is
    [false], any number of complete press/release cycles ends with
    [visible] equal to [false] and no handler pending; and after every
    event along the way at most one release handler is pending. *)
Theorem cycles_round_trip (n : nat) :
  visible boot = false
  /\ visible (run (cycles n) boot) = false
  /\ alt_release (run (cycles n) boot) = []
  /\ forall k : nat, length (alt_release (run (take k (cycles n)) boot)) <= 1.
Proof.
  assert (Hv : visible (run (cycles n) boot) = false)
    by (apply cycles_hidden; [apply steady_boot|reflexivity]).
  repeat split.
  - exact Hv.
  - rewrite (st_pending _ (steady_reachable random_text (cycles n))), Hv. reflexivity.
  - intros k. apply steady_pending_le, steady_reachable.
Qed.

End Scenarios.

(** ** What the handlers leave alone *)

Lemma fixed_part_alter (f : surface -> surface) (wv : handle) (l : list surface) :
  (forall sf, fixed_part (f sf) = fixed_part sf) ->
  fixed_part <$> alter f wv l = fixed_part <$> l.
Proof.
  intros Hf. revert wv. induction l as [|sf l IH]; intros [|wv]; simpl; try reflexivity.
  - rewrite Hf. reflexivity.
  - f_equal. apply IH.
Qed.

Lemma untouched_trans (w1 w2 w3 : world) :
  untouched w1 w2 -> untouched w2 w3 -> untouched w1 w3.
Proof. intros [H1 H2] [H3 H4]. split; congruence. Qed.

Section Frame.

Variable random_text : nat -> string.

Local Abbreviation step := (step random_text).
Local Abbreviation run := (run random_text).

Lemma invoke_untouched (cb : closure) (w : world) :
  untouched w (exec (invoke random_text cb) w)
  /\ draws w <= draws (exec (invoke random_text cb) w).
Proof.
  destruct w as [sfs hk ar v d t]. destruct cb as [wv|wv].
  - destruct v; unfold exec; cbn; (split; [split; [reflexivity|]|lia]); simpl.
    + apply fixed_part_alter. reflexivity.
    + rewrite !fixed_part_alter; reflexivity.
  - unfold exec; cbn. split; [split; [reflexivity|]|lia]. simpl.
    apply fixed_part_alter. reflexivity.
Qed.

Lemma invoke_all_untouched (cbs : list closure) (w : world) :
  untouched w (exec (invoke_all random_text cbs) w)
  /\ draws w <= draws (exec (invoke_all random_text cbs) w).
Proof.
  revert w. induction cbs as [|cb cbs IH]; intros w.
  - split; [split; reflexivity|reflexivity].
  - destruct (invoke_untouched cb w) as [H1 H1'].
    destruct (IH (exec (invoke random_text cb) w)) as [H2 H2'].
    unfold exec in *. simpl. unfold bind.
    destruct (invoke random_text cb w) as [u w1]. simpl in *.
    split; [eapply untouched_trans; eassumption|lia].
Qed.

Lemma exec_bind (c k : M unit) (w : world) :
  exec (c ;; k) w = exec k (exec c w).
Proof. unfold exec, bind. destruct (c w). reflexivity. Qed.

(** Release closures neither draw nor register anything. *)
Lemma invoke_all_releases (cbs : list closure) (w : world) :
  releases_only cbs ->
  draws (exec (invoke_all random_text cbs) w) = draws w
  /\ alt_release (exec (invoke_all random_text cbs) w) = alt_release w.
Proof.
  intros H. revert w. induction H as [|cb cbs Hcb _ IH]; intros w; [split; reflexivity|].
  destruct cb as [wv|wv]; [destruct Hcb|].
  simpl invoke_all. rewrite exec_bind.
  destruct (IH (exec (invoke random_text (OnRelease wv)) w)) as [Hd Hp].
  rewrite Hd, Hp, exec_invoke_release. split; reflexivity.
Qed.

(** C6, as the program has it. Whatever the state and whatever the event,
    delivering it leaves the registered hotkeys and the surfaces' number,
    titles, sizes and liveness as they were, and never moves the random
    generator back. Beside the surface's visibility and content and the
    flag [visible], what the handlers do change is this: with the
    toggle's handler installed, a press of the hotkey while Hidden
    registers exactly one release handler, a press while Visible none,
    and either advances the random generator by exactly one draw; a press
    of another combination changes nothing; a release of Alt leaves no
    handler pending and draws nothing. Every state the program reaches
    has the handler installed and only release closures pending. *)
Theorem handlers_frame (w : world) (e : event) :
  (untouched w (step w e) /\ draws w <= draws (step w e))
  /\ (forall wv : handle, installed wv w ->
        (e = Press -> visible w = false ->
           draws (step w e) = S (draws w)
           /\ alt_release (step w e) = alt_release w ++ [OnRelease wv])
        /\ (e = Press -> visible w = true ->
            draws (step w e) = S (draws w)
            /\ alt_release (step w e) = alt_release w)
        /\ (forall (m : Modifiers) (key : Z),
              e = HotkeyPressed m key -> (m, key) <> (Alt, 0x41%Z) -> step w e = w))
  /\ (e = AltReleased -> releases_only (alt_release w) ->
        draws (step w e) = draws w /\ alt_release (step w e) = [])
  /\ (forall evs : list event,
        installed 0 (run evs boot) /\ releases_only (alt_release (run evs boot))).
Proof.
  split; [|split; [|split]].
  - destruct e as [m key|]; unfold step, deliver.
    + apply (invoke_all_untouched (matching m key (hotkeys w)) w).
    + pose proof (invoke_all_untouched (alt_release w)
                    (set_alt_release (fun _ => []) w)) as H.
      destruct w; exact H.
  - intros wv Hk. split; [|split].
    + intros -> Hv. rewrite (step_press_hidden random_text w wv Hk Hv). split; reflexivity.
    + intros -> Hv. rewrite (step_press_visible random_text w wv Hk Hv). split; reflexivity.
    + intros m key -> Hne. apply (step_other_hotkey random_text w wv m key Hk Hne).
  - intros -> Hr.
    assert (Hs : step w AltReleased
                 = exec (invoke_all random_text (alt_release w))
                        (set_alt_release (fun _ => []) w))
      by (destruct w; reflexivity).
    rewrite Hs.
    destruct (invoke_all_releases (alt_release w) (set_alt_release (fun _ => []) w) Hr)
      as [Hd Hp].
    rewrite Hd, Hp. split; reflexivity.
  - intros evs. pose proof (steady_reachable random_text evs) as Hw.
    split; [apply (st_hotkeys _ Hw)|].
    unfold releases_only. rewrite (st_pending _ Hw).
    destruct (visible (run evs boot)); repeat constructor.
Qed.

End Frame.

(** ** Whole runs *)

Lemma keeps_surface_no_open_no_exit (wv : handle) (l : list effect) :
  forallb (keeps_surface wv) l = true ->
  openWebview_calls l = [] /\ exit_calls l = [].
Proof.
  induction l as [|e l IH]; [split; reflexivity|].
  simpl. intros H. apply andb_prop in H as [He Hl].
  destruct (IH Hl) as [H1 H2]. unfold openWebview_calls, exit_calls in *.
  destruct e; simpl in *; try discriminate; auto.
Qed.

Section Runs.

Variable random_text : nat -> string.

Local Abbreviation step := (step random_text).
Local Abbreviation run := (run random_text).

Lemma step_trace_extends (w : world) (e : event) :
  steady w -> exists l, trace (step w e) = trace w ++ l.
Proof.
  intros Hw. pose proof (st_hotkeys w Hw) as Hk. destruct e as [m key|].
  - destruct (decide ((m, key) = (Alt, 0x41%Z))) as [Heq|Hne].
    + injection Heq as -> ->. change (HotkeyPressed Alt 65) with Press.
      destruct (visible w) eqn:Hv.
      * destruct (press_visible_facts random_text w 0 Hk Hv) as [Ht _]. eauto.
      * destruct (press_hidden_facts random_text w 0 Hk Hv) as [Ht _]. eauto.
    + rewrite (step_other_hotkey _ w 0 m key Hk Hne). exists []. symmetry. apply app_nil_r.
  - pose proof (st_pending w Hw) as Hp. destruct (visible w).
    + destruct (release_armed_facts random_text w 0 Hp) as [Ht _]. eauto.
    + rewrite (step_release_idle _ w Hp). exists []. symmetry. apply app_nil_r.
Qed.

Lemma run_trace_extends (evs : list event) (w : world) :
  steady w -> exists l, trace (run evs w) = trace w ++ l.
Proof.
  revert w. induction evs as [|e evs IH]; intros w Hw.
  - exists []. symmetry. apply app_nil_r.
  - destruct (step_trace_extends w e Hw) as [l1 H1].
    destruct (IH (step w e) (steady_step _ w e Hw)) as [l2 H2].
    exists (l1 ++ l2). simpl. fold (step w e). rewrite H2, H1, app_assoc. reflexivity.
Qed.

(** C7. The surface is opened by the first thing the process does, before
    it waits for any event, and that is the only [openWebview] call of any
    run: whatever the events, the handlers call neither [openWebview] nor
    [exit], every call they make on a surface is on handle 0, and the
    store still holds that one surface, alive, with its title and size. *)
Theorem surface_opened_once (evs : list event) :
  take 1 (trace boot) = [E_openWebview "test" 400 400 0]
  /\ trace (run evs boot) = trace boot ++ emitted boot (run evs boot)
  /\ forallb (keeps_surface 0) (emitted boot (run evs boot)) = true
  /\ openWebview_calls (emitted boot (run evs boot)) = []
  /\ exit_calls (emitted boot (run evs boot)) = []
  /\ openWebview_calls (trace (run evs boot)) = [0]
  /\ exit_calls (trace (run evs boot)) = []
  /\ fixed_part <$> surfaces (run evs boot) = [("test", 400%Z, 400%Z, true)].
Proof.
  pose proof (steady_reachable random_text evs) as Hw.
  destruct (run_trace_extends evs boot steady_boot) as [l Hl].
  rewrite (emitted_app _ _ _ Hl).
  destruct (st_trace _ Hw) as [rest [Ht Hq]].
  assert (Hr : rest = [E_assign_visible false; E_registerHotkey Alt 0x41 (OnPress 0)] ++ l).
  { rewrite Hl in Ht. rewrite boot_eq in Ht. simpl in Ht. injection Ht as <-. reflexivity. }
  assert (Hkl : forallb (keeps_surface 0) l = true).
  { rewrite Hr, forallb_app in Hq. apply andb_prop in Hq as [_ Hq]. exact Hq. }
  destruct (keeps_surface_no_open_no_exit 0 l Hkl) as [Ho He].
  destruct (keeps_surface_no_open_no_exit 0 rest Hq) as [Ho' He'].
  repeat split; try assumption.
  - rewrite Ht. unfold openWebview_calls in *.
    rewrite (omap_app _ [E_openWebview "test" 400 400 0] rest), Ho'. reflexivity.
  - rewrite Ht. unfold exit_calls in *.
    rewrite (omap_app _ [E_openWebview "test" 400 400 0] rest), He'. reflexivity.
  - destruct (st_surfaces _ Hw) as [m ->]. reflexivity.
Qed.

(** C8. With the native layer calling each registered release callback
    once, at the next release of Alt: in every run, arming and firing of
    release handlers alternate, arming first, so a handler fires only
    after the show that armed it and at most once for it; at most one
    handler is pending, and a release leaves none; and a press that comes
    while a handler is pending registers nothing. *)
Theorem release_handler_order (evs : list event) :
  alternating true (lifecycle (trace (run evs boot))) = true
  /\ length (alt_release (run evs boot)) <= 1
  /\ alt_release (step (run evs boot) AltReleased) = []
  /\ (alt_release (run evs boot) <> [] ->
      visible (run evs boot) = true
      /\ registrations (emitted (run evs boot) (step (run evs boot) Press)) = []
      /\ alt_release (step (run evs boot) Press) = alt_release (run evs boot)).
Proof.
  pose proof (steady_reachable random_text evs) as Hw.
  pose proof (st_pending _ Hw) as Hp.
  split; [apply (st_life _ Hw)|].
  split; [apply steady_pending_le, Hw|].
  split.
  - destruct (visible (run evs boot)).
    + destruct (release_armed_facts random_text _ 0 Hp) as (_ & _ & H & _). exact H.
    + rewrite (step_release_idle _ _ Hp). exact Hp.
  - intros Hne. destruct (visible (run evs boot)) eqn:Hv; [|elim Hne; exact Hp].
    destruct (press_visible_facts random_text _ 0 (st_hotkeys _ Hw) Hv)
      as (Ht & _ & Hp' & _).
    rewrite (emitted_app _ _ _ Ht), Hp'. repeat split.
Qed.

End Runs.

(** ** Two runs on the same events *)

Lemma outline_alter (g : surface -> surface) (b : bool) (wv : handle) (l : list surface) :
  (forall sf, outline (g sf) = (fixed_part sf, b)) ->
  outline <$> alter g wv l = alter (fun p => (p.1, b)) wv (outline <$> l).
Proof. intros Hg. apply list_fmap_alter, Forall_true. exact Hg. Qed.

Lemma outline_alter_html (g : surface -> surface) (wv : handle) (l : list surface) :
  (forall sf, outline (g sf) = outline sf) ->
  outline <$> alter g wv l = outline <$> l.
Proof.
  intros Hg. revert wv. induction l as [|sf l IH]; intros [|wv]; simpl; try reflexivity.
  - rewrite Hg. reflexivity.
  - f_equal. apply IH.
Qed.

Section TwoRuns.

Variables random_text random_text' : nat -> string.

Lemma agree_step (w1 w2 : world) (e : event) :
  steady w1 -> steady w2 -> agree w1 w2 ->
  agree (step random_text w1 e) (step random_text' w2 e).
Proof.
  intros H1 H2 [As Ak Ap Av Ad At Ac].
  pose proof (st_hotkeys _ H1) as Hk1. pose proof (st_hotkeys _ H2) as Hk2.
  pose proof (st_pending _ H1) as Hp1. pose proof (st_pending _ H2) as Hp2.
  destruct e as [m key|].
  - destruct (decide ((m, key) = (Alt, 0x41%Z))) as [Heq|Hne].
    + injection Heq as -> ->. change (HotkeyPressed Alt 65) with Press.
      destruct (visible w1) eqn:Hv1; symmetry in Av.
      * rewrite (step_press_visible _ w1 0 Hk1 Hv1), (step_press_visible _ w2 0 Hk2 Av).
        split; simpl; try congruence.
        -- rewrite !outline_alter_html by reflexivity. exact As.
        -- rewrite !fmap_app, At. reflexivity.
        -- unfold setVisible_calls in *. rewrite !omap_app, Ac. reflexivity.
      * rewrite (step_press_hidden _ w1 0 Hk1 Hv1), (step_press_hidden _ w2 0 Hk2 Av).
        split; simpl; try congruence.
        -- rewrite !(outline_alter _ true) by reflexivity. rewrite As. reflexivity.
        -- rewrite !fmap_app, At. reflexivity.
        -- unfold setVisible_calls in *. rewrite !omap_app, Ac. reflexivity.
    + rewrite (step_other_hotkey _ w1 0 m key Hk1 Hne),
              (step_other_hotkey _ w2 0 m key Hk2 Hne).
      split; assumption.
  - destruct (visible w1) eqn:Hv1; symmetry in Av; rewrite Av in Hp2.
    + rewrite (step_release_armed _ w1 0 Hp1), (step_release_armed _ w2 0 Hp2).
      split; simpl; try congruence.
      * rewrite !(outline_alter _ false) by reflexivity. rewrite As. reflexivity.
      * rewrite !fmap_app, At. reflexivity.
      * unfold setVisible_calls in *. rewrite !omap_app, Ac. reflexivity.
    + rewrite (step_release_idle _ w1 Hp1), (step_release_idle _ w2 Hp2).
      split; congruence.
Qed.

Lemma agree_run (evs : list event) (w1 w2 : world) :
  steady w1 -> steady w2 -> agree w1 w2 ->
  agree (run random_text evs w1) (run random_text' evs w2).
Proof.
  revert w1 w2. induction evs as [|e evs IH]; intros w1 w2 H1 H2 Ha; [exact Ha|].
  simpl. apply IH; [apply steady_step, H1|apply steady_step, H2|].
  apply agree_step; assumption.
Qed.

Lemma agree_boot : agree boot boot.
Proof. split; reflexivity. Qed.

(** C10. Two runs on the same events, whatever [Math.random()] prints in
    each: the [setVisible] calls are the same, with the same arguments in
    the same order; [visible] has the same value after every event; and
    the two traces are equal once the markup passed to [setHtml] is
    blanked, as are the two final states up to the displayed pages. *)
Theorem runs_differ_only_in_markup (evs : list event) :
  setVisible_calls (trace (run random_text evs boot))
  = setVisible_calls (trace (run random_text' evs boot))
  /\ (forall k : nat,
        visible (run random_text (take k evs) boot)
        = visible (run random_text' (take k evs) boot)
        /\ setVisible_calls (trace (run random_text (take k evs) boot))
           = setVisible_calls (trace (run random_text' (take k evs) boot)))
  /\ blank_markup <$> trace (run random_text evs boot)
     = blank_markup <$> trace (run random_text' evs boot)
  /\ agree (run random_text evs boot) (run random_text' evs boot).
Proof.
  assert (H : forall l, agree (run random_text l boot) (run random_text' l boot))
    by (intros l; apply agree_run; auto using steady_boot, agree_boot).
  split; [apply (ag_calls _ _ (H evs))|].
  split; [intros k; split; [apply (ag_visible _ _ (H _))|apply (ag_calls _ _ (H _))]|].
  split; [apply (ag_trace _ _ (H evs))|apply H].
Qed.

End TwoRuns.

(** ** Examples, and where the program departs from a stated property *)

(** The markup does follow the draws: the same two presses with two
    different generators give two different traces. *)
Example markup_follows_draws :
  setHtml_calls (trace (run dice [Press; Press] boot))
  = [page "0.8414709848078965"; page "0.9092974268256817"]
  /\ trace (run dice [Press; Press] boot) <> trace (run (fun _ => "0.5") [Press; Press] boot).
Proof. split; [reflexivity|]. vm_compute. discriminate. Qed.

Lemma press_while_visible_shows_nothing_witness :
  installed 0 (step dice boot Press)
  /\ visible (step dice boot Press) = true
  /\ setVisible_calls (emitted (step dice boot Press)
                               (run dice (repeat Press 3) (step dice boot Press))) = []
  /\ alt_release (run dice (repeat Press 3) (step dice boot Press)) = [OnRelease 0].
Proof.
  assert (Hk : installed 0 (step dice boot Press)) by reflexivity.
  assert (Hv : visible (step dice boot Press) = true) by reflexivity.
  destruct (press_while_visible_shows_nothing dice (step dice boot Press) 0 3 Hk Hv)
    as [(_ & Hc & _ & _ & Hp & _) _].
  rewrite Hp. exact (conj Hk (conj Hv (conj Hc eq_refl))).
Defined.

(** C2 as stated fails: the second press of the scenario does call the
    surface, to refresh its page. *)
Lemma second_press_calls_the_surface :
  ~ (visible (run dice [Press] boot) = true
     /\ setVisible_calls (emitted boot (run dice [Press] boot)) = [true]
     /\ surface_calls (emitted (run dice [Press] boot) (run dice [Press; Press] boot)) = []
     /\ visible (run dice [Press; Press; AltReleased] boot) = false
     /\ setVisible_calls (emitted (run dice [Press; Press] boot)
                                  (run dice [Press; Press; AltReleased] boot)) = [false]).
Proof. intros (_ & _ & H & _). vm_compute in H. discriminate. Qed.

Lemma scenario_press_press_release_witness :
  installed 0 boot /\ visible boot = false /\ alt_release boot = []
  /\ surface_calls (emitted (run dice [Press] boot) (run dice [Press; Press] boot))
     = [E_setHtml 0 (page "0.9092974268256817")]
  /\ setVisible_calls (emitted boot (run dice [Press; Press; AltReleased] boot))
     = [true; false].
Proof.
  assert (Hk : installed 0 boot) by reflexivity.
  assert (Hv : visible boot = false) by reflexivity.
  assert (Hp : alt_release boot = []) by reflexivity.
  destruct (scenario_press_press_release dice boot 0 Hk Hv Hp)
    as (_ & (_ & Hs & _) & _ & Hc).
  exact (conj Hk (conj Hv (conj Hp (conj Hs Hc)))).
Defined.

Lemma press_while_hidden_shows_witness :
  installed 0 boot /\ visible boot = false
  /\ visible (step dice boot Press) = true
  /\ alt_release (step dice boot Press) = [OnRelease 0]
  /\ setVisible_calls (emitted boot (step dice boot Press)) = [true].
Proof.
  assert (Hk : installed 0 boot) by reflexivity.
  assert (Hv : visible boot = false) by reflexivity.
  destruct (press_while_hidden_shows dice boot 0 Hk Hv) as (_ & Hc & _ & Hv' & Hp & _).
  exact (conj Hk (conj Hv (conj Hv' (conj Hp Hc)))).
Defined.

Lemma release_handler_hides_witness :
  alt_release (step dice boot Press) = [OnRelease 0]
  /\ surface_calls (emitted (step dice boot Press)
                            (step dice (step dice boot Press) AltReleased))
     = [E_setVisible 0 false]
  /\ visible (step dice (step dice boot Press) AltReleased) = false.
Proof.
  assert (Hp : alt_release (step dice boot Press) = [OnRelease 0]) by reflexivity.
  destruct (release_handler_hides dice (step dice boot Press) 0) as [_ H].
  destruct (H Hp) as (Hs & _ & Hv & _).
  exact (conj Hp (conj Hs Hv)).
Defined.

(** C6 as stated fails: the first press also arms a release handler in
    the hotkey service and advances the random generator. *)
Lemma press_touches_more_than_surface_and_flag :
  ~ (hotkeys (step dice boot Press) = hotkeys boot
     /\ fixed_part <$> surfaces (step dice boot Press) = fixed_part <$> surfaces boot
     /\ alt_release (step dice boot Press) = alt_release boot
     /\ draws (step dice boot Press) = draws boot).
Proof. intros (_ & _ & H & _). vm_compute in H. discriminate. Qed.

Lemma handlers_frame_witness :
  installed 0 boot /\ visible boot = false
  /\ draws (step dice boot Press) = 1
  /\ alt_release (step dice boot Press) = [OnRelease 0].
Proof.
  assert (Hk : installed 0 boot) by reflexivity.
  assert (Hv : visible boot = false) by reflexivity.
  destruct (handlers_frame dice boot Press) as (_ & H & _).
  destruct (H 0 Hk) as (Hh & _).
  destruct (Hh eq_refl Hv) as [Hd Hp].
  exact (conj Hk (conj Hv (conj Hd Hp))).
Defined.

Lemma release_handler_order_witness :
  alt_release (run dice [Press] boot) <> []
  /\ registrations (emitted (run dice [Press] boot)
                            (step dice (run dice [Press] boot) Press)) = []
  /\ alt_release (step dice (run dice [Press] boot) Press) = [OnRelease 0].
Proof.
  assert (Hne : alt_release (run dice [Press] boot) <> []) by (vm_compute; discriminate).
  destruct (release_handler_order dice [Press]) as (_ & _ & _ & H).
  destruct (H Hne) as (_ & Hr & Hp).
  rewrite Hp. exact (conj Hne (conj Hr eq_refl)).
Defined.

Lemma press_always_refreshes_witness :
  installed 0 (step dice boot Press)
  /\ setHtml_calls (emitted (step dice boot Press) (step dice (step dice boot Press) Press))
     = [page "0.9092974268256817"].
Proof.
  assert (Hk : installed 0 (step dice boot Press)) by reflexivity.
  destruct (press_always_refreshes dice (step dice boot Press) 0 Hk) as (Hs & _).
  exact (conj Hk Hs).
Defined.

(** ** More on the toggle of [index.ts] *)

Lemma is_press_Press (e : event) : is_press e = true <-> e = Press.
Proof.
  split; [|intros ->; reflexivity].
  destruct e as [[] key|]; simpl; try discriminate.
  intros H. apply Z.eqb_eq in H. subst key. reflexivity.
Qed.

Lemma presses_snoc (evs : list event) (e : event) :
  presses (evs ++ [e]) = presses evs + (if is_press e then 1 else 0).
Proof.
  unfold presses. rewrite List.filter_app, length_app. simpl.
  destruct (is_press e); reflexivity.
Qed.

Section Toggle.

Variable random_text : nat -> string.

Local Abbreviation step := (step random_text).
Local Abbreviation run := (run random_text).

Lemma run_snoc (evs : list event) (e : event) (w : world) :
  run (evs ++ [e]) w = step (run evs w) e.
Proof. unfold run. rewrite fold_left_app. reflexivity. Qed.

(** What an event does in a reachable state, by cases. *)
Lemma step_cases (w : world) (e : event) :
  steady w ->
  (is_press e = false /\ (e = AltReleased -> visible w = false) /\ step w e = w)
  \/ (e = Press /\ visible w = false /\ step w e =
        World (alter (fun sf => Surface (title sf) (width sf) (height sf) true
                                  (page (random_text (draws w))) (alive sf)) 0 (surfaces w))
              (hotkeys w) (alt_release w ++ [OnRelease 0]) true (S (draws w))
              (trace w ++ [E_invoke (OnPress 0);
                           E_setHtml 0 (page (random_text (draws w)));
                           E_setVisible 0 true; E_assign_visible true;
                           E_registerAltRelease (OnRelease 0)]))
  \/ (e = Press /\ visible w = true /\ step w e =
        World (alter (fun sf => Surface (title sf) (width sf) (height sf) (shown sf)
                                  (page (random_text (draws w))) (alive sf)) 0 (surfaces w))
              (hotkeys w) (alt_release w) true (S (draws w))
              (trace w ++ [E_invoke (OnPress 0);
                           E_setHtml 0 (page (random_text (draws w)))]))
  \/ (e = AltReleased /\ visible w = true /\ step w e =
        World (alter (fun sf => Surface (title sf) (width sf) (height sf) false
                                  (html sf) (alive sf)) 0 (surfaces w))
              (hotkeys w) [] false (draws w)
              (trace w ++ [E_invoke (OnRelease 0); E_setVisible 0 false;
                           E_assign_visible false])).
Proof.
  intros Hw. pose proof (st_hotkeys w Hw) as Hk. pose proof (st_pending w Hw) as Hp.
  destruct e as [m key|].
  - destruct (decide ((m, key) = (Alt, 0x41%Z))) as [Heq|Hne].
    + injection Heq as -> ->. change (HotkeyPressed Alt 65) with Press.
      destruct (visible w) eqn:Hv.
      * right. right. left. split; [reflexivity|]. split; [reflexivity|].
        apply step_press_visible; assumption.
      * right. left. split; [reflexivity|]. split; [reflexivity|].
        apply step_press_hidden; assumption.
    + left. split; [|split; [discriminate|]].
      * destruct (is_press (HotkeyPressed m key)) eqn:Hi; [|reflexivity].
        apply is_press_Press in Hi. injection Hi as -> ->. elim Hne. reflexivity.
      * apply (step_other_hotkey _ w 0); assumption.
  - destruct (visible w) eqn:Hv.
    + right. right. right. split; [reflexivity|]. split; [reflexivity|].
      apply step_release_armed; assumption.
    + left. split; [reflexivity|]. split; [reflexivity|].
      apply step_release_idle; assumption.
Qed.

(** X1. In every state the program reaches, [visible] is the visibility
    the surface was last told to have, and a release handler is pending
    exactly while [visible] is [true] (and then it is the one closure of
    the last show). *)
Theorem visible_mirrors_surface (evs : list event) :
  shown <$> surfaces (run evs boot) !! 0 = Some (visible (run evs boot))
  /\ alt_release (run evs boot)
     = (if visible (run evs boot) then [OnRelease 0] else []).
Proof.
  pose proof (steady_reachable random_text evs) as Hw.
  split; [|apply (st_pending _ Hw)].
  destruct (st_surfaces _ Hw) as [m ->]. reflexivity.
Qed.

(** X2. The flag of the program follows the two-state machine of the
    specification on every event sequence, presses of other key
    combinations and releases while Hidden included. *)
Theorem visible_refines_spec_toggle (evs : list event) :
  visible (run evs boot) = fold_left spec_toggle evs false.
Proof.
  induction evs as [|e evs IH] using rev_ind; [reflexivity|].
  rewrite run_snoc, fold_left_app. simpl. rewrite <- IH.
  destruct (step_cases (run evs boot) e (steady_reachable random_text evs))
    as [(Hi & Hr & ->)|[(-> & _ & ->)|[(-> & _ & ->)|(-> & _ & ->)]]];
    try reflexivity.
  unfold spec_toggle. rewrite Hi. destruct e; [reflexivity|]. apply Hr. reflexivity.
Qed.

(** X3. [Math.random()] is called once per press of the hotkey and by
    nothing else, the [setHtml] calls of a run are the pages of the draws
    in order, and the surface displays the page of the latest draw (the
    empty initial content before the first press). *)
Theorem page_follows_presses (evs : list event) :
  draws (run evs boot) = presses evs
  /\ setHtml_calls (trace (run evs boot))
     = (fun i => page (random_text i)) <$> seq 0 (presses evs)
  /\ html <$> surfaces (run evs boot) !! 0
     = Some (match presses evs with
             | O => ""
             | S i => page (random_text i)
             end).
Proof.
  induction evs as [|e evs IH] using rev_ind; [repeat split|].
  destruct IH as (Hd & Hs & Hh).
  pose proof (steady_reachable random_text evs) as Hw.
  destruct (st_surfaces _ Hw) as [m Hm].
  rewrite run_snoc, presses_snoc.
  destruct (step_cases (run evs boot) e Hw)
    as [(Hi & _ & ->)|[(-> & _ & ->)|[(-> & _ & ->)|(-> & _ & ->)]]]; simpl.
  - rewrite Hi, Nat.add_0_r. auto.
  - rewrite Nat.add_1_r, seq_S, fmap_app. unfold setHtml_calls in *.
    rewrite omap_app, Hs, Hd, Hm. repeat split.
  - rewrite Nat.add_1_r, seq_S, fmap_app. unfold setHtml_calls in *.
    rewrite omap_app, Hs, Hd, Hm. repeat split.
  - rewrite Nat.add_0_r. unfold setHtml_calls in *.
    rewrite omap_app, Hs, app_nil_r. repeat split; [exact Hd|].
    rewrite Hm in *. exact Hh.
Qed.

(** X4. Events the toggle has no use for change nothing at all, trace
    included: a press of any combination other than Alt+0x41, and a
    release of Alt while Hidden; in particular a second release right
    after a release does nothing. *)
Theorem idle_events_change_nothing (evs : list event) (e : event) :
  is_press e = false ->
  (e = AltReleased -> visible (run evs boot) = false) ->
  step (run evs boot) e = run evs boot
  /\ step (step (run evs boot) AltReleased) AltReleased = step (run evs boot) AltReleased.
Proof.
  intros Hi Hr. pose proof (steady_reachable random_text evs) as Hw. split.
  - destruct (step_cases (run evs boot) e Hw)
      as [(_ & _ & H)|[(-> & _)|[(-> & _)|(-> & Hv & _)]]];
      [exact H|discriminate|discriminate|].
    rewrite (Hr eq_refl) in Hv. discriminate.
  - pose proof (steady_step random_text _ AltReleased Hw) as Hw'.
    apply step_release_idle.
    destruct (step_cases (run evs boot) AltReleased Hw)
      as [(_ & Hv & ->)|[(He & _)|[(He & _)|(_ & _ & ->)]]];
      [|discriminate|discriminate|reflexivity].
    rewrite (st_pending _ Hw), (Hv eq_refl). reflexivity.
Qed.

(** X5. The surface is never told twice in a row to be shown, nor twice
    in a row to be hidden: the [setVisible] calls of every run are
    [true; false; true; ...], and the run ends Visible exactly when their
    number is odd. *)
Theorem setVisible_calls_alternate (evs : list event) :
  alternating true (setVisible_calls (trace (run evs boot))) = true
  /\ visible (run evs boot)
     = Nat.odd (length (setVisible_calls (trace (run evs boot)))).
Proof.
  destruct (st_calls _ (steady_reachable random_text evs)) as [Ha Hn].
  split; [exact Ha|].
  unfold next_after in Hn. rewrite <- Nat.negb_even.
  destruct (Nat.even _), (visible _); simpl in *; congruence.
Qed.

End Toggle.

(** ** Delivery, generically *)

Section DeliveryFacts.

Variable body : closure -> M unit.

Lemma step_by_press (w : world) (wv : handle) :
  installed wv w -> step_by body w Press = exec (invoke_by body (OnPress wv)) w.
Proof.
  unfold installed, step_by, exec, deliver_by, Press, bind, get. intros ->.
  rewrite matching_installed. unfold invoke_all_by, bind, ret.
  destruct (invoke_by body (OnPress wv) w). reflexivity.
Qed.

Lemma step_by_other_hotkey (w : world) (wv : handle) (m : Modifiers) (key : Z) :
  installed wv w -> (m, key) <> (Alt, 0x41%Z) ->
  step_by body w (HotkeyPressed m key) = w.
Proof.
  destruct w as [sfs hk ar v d t]. unfold installed. simpl. intros -> Hne.
  unfold step_by, exec, deliver_by, bind, get. simpl.
  destruct (decide (Alt = m /\ 65%Z = key)) as [[<- <-]|]; [congruence|reflexivity].
Qed.

Lemma step_by_release_idle (w : world) :
  alt_release w = [] -> step_by body w AltReleased = w.
Proof.
  destruct w as [sfs hk ar v d t]. simpl. intros ->. reflexivity.
Qed.

Lemma step_by_release_one (w : world) (cb : closure) :
  alt_release w = [cb] ->
  step_by body w AltReleased
  = exec (invoke_by body cb) (set_alt_release (fun _ => []) w).
Proof.
  destruct w as [sfs hk ar v d t]. simpl. intros ->.
  unfold step_by, exec, deliver_by, bind, get, modify. simpl.
  unfold bind, ret.
  destruct (invoke_by body cb _). reflexivity.
Qed.

Lemma run_by_snoc (evs : list event) (e : event) (w : world) :
  run_by body (evs ++ [e]) w = step_by body (run_by body evs w) e.
Proof. unfold run_by. rewrite fold_left_app. reflexivity. Qed.

End DeliveryFacts.

(** [index.ts] is delivered the same way. *)
Lemma invoke_all_index (random_text : nat -> string) (cbs : list closure) :
  invoke_all random_text cbs = invoke_all_by (index_body random_text) cbs.
Proof.
  induction cbs as [|cb cbs IH]; [reflexivity|].
  simpl. rewrite IH. reflexivity.
Qed.

Lemma step_index (random_text : nat -> string) (w : world) (e : event) :
  step random_text w e = step_by (index_body random_text) w e.
Proof.
  unfold step, step_by, deliver, deliver_by.
  destruct e; rewrite ?invoke_all_index; reflexivity.
Qed.

(** ** The toggle without refresh *)

Lemma bare_boot : Bare.boot = boot.
Proof. reflexivity. Qed.

Lemma bare_press_hidden (w : world) (wv : handle) :
  installed wv w -> visible w = false ->
  Bare.step w Press =
    World (alter (fun sf => Surface (title sf) (width sf) (height sf) true
                              (html sf) (alive sf)) wv (surfaces w))
          (hotkeys w) (alt_release w ++ [OnRelease wv]) true (draws w)
          (trace w ++ [E_invoke (OnPress wv); E_setVisible wv true;
                       E_assign_visible true; E_registerAltRelease (OnRelease wv)]).
Proof.
  intros Hk Hv. unfold Bare.step. rewrite (step_by_press _ w wv Hk).
  destruct w as [sfs hk ar v d t]. simpl in Hv. subst v.
  unfold exec. cbn. rewrite <- !app_assoc. reflexivity.
Qed.

Lemma bare_press_visible (w : world) (wv : handle) :
  installed wv w -> visible w = true ->
  Bare.step w Press =
    World (surfaces w) (hotkeys w) (alt_release w) true (draws w)
          (trace w ++ [E_invoke (OnPress wv)]).
Proof.
  intros Hk Hv. unfold Bare.step. rewrite (step_by_press _ w wv Hk).
  destruct w as [sfs hk ar v d t]. simpl in Hv. subst v. reflexivity.
Qed.

Lemma bare_release_armed (w : world) (wv : handle) :
  alt_release w = [OnRelease wv] ->
  Bare.step w AltReleased =
    World (alter (fun sf => Surface (title sf) (width sf) (height sf) false
                              (html sf) (alive sf)) wv (surfaces w))
          (hotkeys w) [] false (draws w)
          (trace w ++ [E_invoke (OnRelease wv); E_setVisible wv false;
                       E_assign_visible false]).
Proof.
  intros Hp. unfold Bare.step. rewrite (step_by_release_one _ w _ Hp).
  destruct w as [sfs hk ar v d t]. unfold exec. cbn.
  rewrite <- !app_assoc. reflexivity.
Qed.

(** What an event does to the toggle without refresh, by cases. *)
Lemma bare_step_cases (w : world) (e : event) :
  steady w ->
  (is_press e = false /\ (e = AltReleased -> visible w = false) /\ Bare.step w e = w)
  \/ (e = Press /\ visible w = false /\ Bare.step w e =
        World (alter (fun sf => Surface (title sf) (width sf) (height sf) true
                                  (html sf) (alive sf)) 0 (surfaces w))
              (hotkeys w) (alt_release w ++ [OnRelease 0]) true (draws w)
              (trace w ++ [E_invoke (OnPress 0); E_setVisible 0 true;
                           E_assign_visible true; E_registerAltRelease (OnRelease 0)]))
  \/ (e = Press /\ visible w = true /\ Bare.step w e =
        World (surfaces w) (hotkeys w) (alt_release w) true (draws w)
              (trace w ++ [E_invoke (OnPress 0)]))
  \/ (e = AltReleased /\ visible w = true /\ Bare.step w e =
        World (alter (fun sf => Surface (title sf) (width sf) (height sf) false
                                  (html sf) (alive sf)) 0 (surfaces w))
              (hotkeys w) [] false (draws w)
              (trace w ++ [E_invoke (OnRelease 0); E_setVisible 0 false;
                           E_assign_visible false])).
Proof.
  intros Hw. pose proof (st_hotkeys w Hw) as Hk. pose proof (st_pending w Hw) as Hp.
  destruct e as [m key|].
  - destruct (decide ((m, key) = (Alt, 0x41%Z))) as [Heq|Hne].
    + injection Heq as -> ->. change (HotkeyPressed Alt 65) with Press.
      destruct (visible w) eqn:Hv.
      * right. right. left. split; [reflexivity|]. split; [reflexivity|].
        apply bare_press_visible; assumption.
      * right. left. split; [reflexivity|]. split; [reflexivity|].
        apply bare_press_hidden; assumption.
    + left. split; [|split; [discriminate|]].
      * destruct (is_press (HotkeyPressed m key)) eqn:Hi; [|reflexivity].
        apply is_press_Press in Hi. injection Hi as -> ->. elim Hne. reflexivity.
      * apply (step_by_other_hotkey _ w 0); assumption.
  - destruct (visible w) eqn:Hv.
    + right. right. right. split; [reflexivity|]. split; [reflexivity|].
      apply bare_release_armed; assumption.
    + left. split; [reflexivity|]. split; [reflexivity|].
      apply step_by_release_idle; assumption.
Qed.

Lemma bare_steady_step (w : world) (e : event) : steady w -> steady (Bare.step w e).
Proof.
  intros Hw.
  destruct (bare_step_cases w e Hw)
    as [(_ & _ & ->)|[(_ & Hv & ->)|[(_ & Hv & ->)|(_ & Hv & ->)]]]; [exact Hw| | |];
    destruct Hw as [[m Hs] Hk Hp [rest [Ht Hq]] Ha Hc Hl]; rewrite Hv in *;
    split; simpl;
    try (rewrite Hs; eexists; reflexivity);
    try exact Hk; try (rewrite Hp; reflexivity); try reflexivity;
    try (rewrite Ht; eexists; split; [reflexivity|rewrite forallb_app, Hq; reflexivity]).
  - unfold assignments in *. rewrite omap_app. apply (continues_snoc _ _ false), Ha.
  - unfold setVisible_calls in *. rewrite omap_app. apply (continues_snoc _ _ false), Hc.
  - unfold lifecycle in *. rewrite omap_app. apply (continues_snoc _ _ false), Hl.
  - unfold assignments in *. rewrite omap_app, app_nil_r. exact Ha.
  - unfold setVisible_calls in *. rewrite omap_app, app_nil_r. exact Hc.
  - unfold lifecycle in *. rewrite omap_app, app_nil_r. exact Hl.
  - unfold assignments in *. rewrite omap_app. apply (continues_snoc _ _ true), Ha.
  - unfold setVisible_calls in *. rewrite omap_app. apply (continues_snoc _ _ true), Hc.
  - unfold lifecycle in *. rewrite omap_app. apply (continues_snoc _ _ true), Hl.
Qed.

Lemma bare_steady_run (evs : list event) : steady (Bare.run evs Bare.boot).
Proof.
  induction evs as [|e evs IH] using rev_ind; [apply steady_boot|].
  unfold Bare.run. rewrite run_by_snoc. apply bare_steady_step, IH.
Qed.

Lemma without_refresh_app (t l : list effect) :
  without_refresh (t ++ l) = without_refresh t ++ without_refresh l.
Proof. apply List.filter_app. Qed.

Lemma fmap_alter_keep {B : Type} (f : surface -> B) (g : surface -> surface)
    (wv : handle) (l : list surface) :
  (forall sf, f (g sf) = f sf) ->
  f <$> alter g wv l = f <$> l.
Proof.
  intros Hg. revert wv. induction l as [|sf l IH]; intros [|wv]; simpl; try reflexivity.
  - rewrite Hg. reflexivity.
  - f_equal. apply IH.
Qed.

Lemma without_refresh_no_setHtml (t : list effect) :
  setHtml_calls (without_refresh t) = [].
Proof.
  induction t as [|x t IH]; [reflexivity|].
  destruct x; cbn; exact IH.
Qed.

Lemma same_toggle_boot : same_toggle boot Bare.boot.
Proof. split; try reflexivity. split; reflexivity. Qed.

Lemma same_toggle_step (random_text : nat -> string) (w b : world) (e : event) :
  steady w -> steady b -> same_toggle w b ->
  same_toggle (step random_text w e) (Bare.step b e).
Proof.
  intros Hw Hb [Ss Sk Sp Sv St [Sd Sh]].
  pose proof (step_cases random_text w e Hw) as Cw.
  pose proof (bare_step_cases b e Hb) as Cb.
  destruct Cw as [(Hi & Hr & ->)|[(He & Hv & ->)|[(He & Hv & ->)|(He & Hv & ->)]]];
  destruct Cb as [(Hi' & Hr' & ->)|[(He' & Hv' & ->)|[(He' & Hv' & ->)|(He' & Hv' & ->)]]];
  try (subst e; discriminate); try congruence;
  try (subst e; specialize (Hr eq_refl); congruence);
  try (subst e; specialize (Hr' eq_refl); congruence).
  - split; auto.
  - split; simpl; try congruence.
    + rewrite !(outline_alter _ true) by reflexivity. rewrite Ss. reflexivity.
    + rewrite without_refresh_app, St. reflexivity.
    + split; [exact Sd|]. rewrite !fmap_alter_keep by reflexivity. exact Sh.
  - split; simpl; try congruence.
    + rewrite outline_alter_html by reflexivity. exact Ss.
    + rewrite without_refresh_app, St. reflexivity.
    + split; assumption.
  - split; simpl; try congruence.
    + rewrite !(outline_alter _ false) by reflexivity. rewrite Ss. reflexivity.
    + rewrite without_refresh_app, St. reflexivity.
    + split; [exact Sd|]. rewrite !fmap_alter_keep by reflexivity. exact Sh.
Qed.

(** X6. The toggle without refresh (first unnamed file) is [index.ts]
    minus the refreshes: on the same events, whatever [Math.random()]
    prints, the two have the same flag, the same pending handler, the same
    surface up to its markup, and the trace of [index.ts] with its
    [setHtml] calls removed is the trace of the other, which never draws
    and never changes the page. *)
Theorem index_is_bare_plus_refresh (random_text : nat -> string) (evs : list event) :
  visible (run random_text evs boot) = visible (Bare.run evs Bare.boot)
  /\ alt_release (run random_text evs boot) = alt_release (Bare.run evs Bare.boot)
  /\ outline <$> surfaces (run random_text evs boot)
     = outline <$> surfaces (Bare.run evs Bare.boot)
  /\ without_refresh (trace (run random_text evs boot)) = trace (Bare.run evs Bare.boot)
  /\ setHtml_calls (trace (Bare.run evs Bare.boot)) = []
  /\ draws (Bare.run evs Bare.boot) = 0
  /\ html <$> surfaces (Bare.run evs Bare.boot) !! 0 = Some "".
Proof.
  assert (H : same_toggle (run random_text evs boot) (Bare.run evs Bare.boot)).
  { induction evs as [|e evs IH] using rev_ind; [apply same_toggle_boot|].
    rewrite run_snoc. unfold Bare.run. rewrite run_by_snoc.
    apply same_toggle_step;
      [apply steady_reachable|apply bare_steady_run|exact IH]. }
  destruct H as [Ss Sk Sp Sv St [Sd Sh]].
  repeat (split; [assumption|]).
  split; [|split; [exact Sd|]].
  - rewrite <- St. apply without_refresh_no_setHtml.
  - destruct (st_surfaces _ (bare_steady_run evs)) as [m Hm].
    rewrite Hm in *. simpl in Sh. injection Sh as ->. reflexivity.
Qed.

(** X7. In the toggle without refresh, presses while Visible call nothing
    in the native layer: however many come, surfaces, pending handlers,
    flag and draws stay as they are, and the trace only records that the
    callback was entered. *)
Theorem bare_press_while_visible_is_silent (w : world) (wv : handle) (n : nat) :
  installed wv w -> visible w = true ->
  surfaces (Bare.run (repeat Press n) w) = surfaces w
  /\ hotkeys (Bare.run (repeat Press n) w) = hotkeys w
  /\ alt_release (Bare.run (repeat Press n) w) = alt_release w
  /\ visible (Bare.run (repeat Press n) w) = true
  /\ draws (Bare.run (repeat Press n) w) = draws w
  /\ emitted w (Bare.run (repeat Press n) w) = repeat (E_invoke (OnPress wv)) n.
Proof.
  intros Hk Hv.
  assert (H : Bare.run (repeat Press n) w =
              World (surfaces w) (hotkeys w) (alt_release w) true (draws w)
                    (trace w ++ repeat (E_invoke (OnPress wv)) n)).
  { revert w Hk Hv. induction n as [|n IH]; intros w Hk Hv.
    - simpl. rewrite app_nil_r. destruct w; simpl in *; subst; reflexivity.
    - simpl repeat. change (Bare.run (Press :: repeat Press n) w)
        with (Bare.run (repeat Press n) (Bare.step w Press)).
      rewrite (bare_press_visible w wv Hk Hv).
      rewrite IH by (try exact Hk; reflexivity).
      simpl. rewrite <- app_assoc. reflexivity. }
  rewrite (emitted_app w _ (repeat (E_invoke (OnPress wv)) n))
    by (rewrite H; reflexivity).
  rewrite H. repeat split.
Qed.

(** ** The press-to-flip variant *)

Lemma flip_boot :
  Flip.boot = World [Surface "test" 200 400 false "" true]
                    [(Alt, 0x41%Z, OnPress 0)] [] false 0
                    [E_openWebview "test" 200 400 0; E_assign_visible false;
                     E_registerHotkey Alt 0x41 (OnPress 0)].
Proof. reflexivity. Qed.

Lemma flip_press (w : world) (wv : handle) :
  installed wv w ->
  Flip.step w Press =
    World (alter (fun sf => Surface (title sf) (width sf) (height sf) (negb (visible w))
                              (html sf) (alive sf)) wv (surfaces w))
          (hotkeys w) (alt_release w) (negb (visible w)) (draws w)
          (trace w ++ [E_invoke (OnPress wv); E_setVisible wv (negb (visible w));
                       E_assign_visible (negb (visible w))]).
Proof.
  intros Hk. unfold Flip.step. rewrite (step_by_press _ w wv Hk).
  destruct w as [sfs hk ar v d t]. unfold exec. cbn.
  rewrite <- !app_assoc. reflexivity.
Qed.

Lemma odd_succ_negb (n : nat) : Nat.odd (S n) = negb (Nat.odd n).
Proof. rewrite Nat.odd_succ, Nat.negb_odd. reflexivity. Qed.

(** X8. In the press-to-flip variant the state is a function of the
    number of presses of Alt+0x41 alone: the flag and the surface's
    visibility are its parity, the [setVisible] calls are
    [true; false; true; ...], one per press, and no release handler is
    ever registered, so releasing Alt, like any other key, does nothing. *)
Theorem flip_follows_parity (evs : list event) :
  surfaces (Flip.run evs Flip.boot)
  = [Surface "test" 200 400 (Nat.odd (presses evs)) "" true]
  /\ hotkeys (Flip.run evs Flip.boot) = [(Alt, 0x41%Z, OnPress 0)]
  /\ alt_release (Flip.run evs Flip.boot) = []
  /\ visible (Flip.run evs Flip.boot) = Nat.odd (presses evs)
  /\ setVisible_calls (trace (Flip.run evs Flip.boot)) = Nat.odd <$> seq 1 (presses evs)
  /\ registrations (trace (Flip.run evs Flip.boot)) = [].
Proof.
  induction evs as [|e evs IH] using rev_ind; [repeat split|].
  destruct IH as (Hs & Hk & Hp & Hv & Hc & Hr).
  unfold Flip.run in *. rewrite run_by_snoc, presses_snoc. fold Flip.step.
  destruct (is_press e) eqn:Hi.
  - apply is_press_Press in Hi. subst e.
    rewrite (flip_press _ 0 Hk). simpl.
    rewrite Hs, Hv, Nat.add_1_r, seq_S, fmap_app, odd_succ_negb. simpl.
    unfold setVisible_calls, registrations in *.
    rewrite !omap_app, Hc, Hr. simpl. rewrite odd_succ_negb. repeat split; assumption.
  - rewrite Nat.add_0_r.
    assert (He : Flip.step (run_by Flip.body evs Flip.boot) e
                 = run_by Flip.body evs Flip.boot).
    { destruct e as [m key|].
      - apply (step_by_other_hotkey _ _ 0); [exact Hk|].
        intros Heq. injection Heq as -> ->. discriminate.
      - apply step_by_release_idle, Hp. }
    rewrite He. auto 10.
Qed.

(** X9. In the press-to-flip variant two presses in a row undo each
    other: the flag is back at its value, the surface is told to take the
    opposite visibility and then the original one, and nothing else is
    called. *)
Theorem flip_twice_restores (w : world) (wv : handle) :
  installed wv w ->
  visible (Flip.run [Press; Press] w) = visible w
  /\ shown <$> surfaces (Flip.run [Press; Press] w) !! wv
     = (fun _ => visible w) <$> surfaces w !! wv
  /\ surface_calls (emitted w (Flip.run [Press; Press] w))
     = [E_setVisible wv (negb (visible w)); E_setVisible wv (visible w)]
  /\ alt_release (Flip.run [Press; Press] w) = alt_release w.
Proof.
  intros Hk.
  change (Flip.run [Press; Press] w) with (Flip.step (Flip.step w Press) Press).
  assert (H : Flip.step (Flip.step w Press) Press =
    World (alter (fun sf => Surface (title sf) (width sf) (height sf) (visible w)
                              (html sf) (alive sf)) wv (surfaces w))
          (hotkeys w) (alt_release w) (visible w) (draws w)
          (trace w ++ [E_invoke (OnPress wv); E_setVisible wv (negb (visible w));
                       E_assign_visible (negb (visible w));
                       E_invoke (OnPress wv); E_setVisible wv (visible w);
                       E_assign_visible (visible w)])).
  { rewrite (flip_press w wv Hk).
    rewrite (flip_press _ wv) by exact Hk. simpl.
    rewrite negb_involutive, <- app_assoc, list_alter_alter_eq. reflexivity. }
  rewrite (emitted_app w _ _ (f_equal trace H)).
  rewrite H. simpl. repeat split. apply shown_alter.
Qed.

(** ** Delivery in the host, generically *)

Section HostFacts.

Variable body : closure -> JS unit.
Variable timer_body : timer_closure -> JS unit.

Lemma step_js_press (h : host) (wv : handle) :
  installed wv (proc h) ->
  step_js body timer_body h (Native Press) = exec_js (invoke_js body (OnPress wv)) h.
Proof.
  unfold installed, step_js, exec_js, deliver_js, Press, bind_js, get_js. intros ->.
  rewrite matching_installed. unfold invoke_all_js, bind_js, ret_js.
  destruct (invoke_js body (OnPress wv) h). reflexivity.
Qed.

Lemma step_js_other_hotkey (h : host) (wv : handle) (m : Modifiers) (key : Z) :
  installed wv (proc h) -> (m, key) <> (Alt, 0x41%Z) ->
  step_js body timer_body h (Native (HotkeyPressed m key)) = h.
Proof.
  destruct h as [[sfs hk ar v d t] out now q]. unfold installed. simpl. intros -> Hne.
  unfold step_js, exec_js, deliver_js, bind_js, get_js. simpl.
  destruct (decide (Alt = m /\ 65%Z = key)) as [[<- <-]|]; [congruence|reflexivity].
Qed.

Lemma step_js_release_idle (h : host) :
  alt_release (proc h) = [] -> step_js body timer_body h (Native AltReleased) = h.
Proof.
  destruct h as [[sfs hk ar v d t] out now q]. simpl. intros ->. reflexivity.
Qed.

Lemma step_js_release_one (h : host) (cb : closure) :
  alt_release (proc h) = [cb] ->
  step_js body timer_body h (Native AltReleased)
  = exec_js (invoke_js body cb)
      (Host (set_alt_release (fun _ => []) (proc h)) (console h) (clock h) (timers h)).
Proof.
  destruct h as [[sfs hk ar v d t] out now q]. simpl. intros ->.
  unfold step_js, exec_js, deliver_js, bind_js, get_js. simpl.
  unfold bind_js, ret_js.
  destruct (invoke_js body cb _). reflexivity.
Qed.

Lemma step_js_elapsed_idle (h : host) (ms : nat) :
  timers h = [] ->
  step_js body timer_body h (Elapsed ms) = Host (proc h) (console h) (clock h + ms) [].
Proof.
  destruct h as [w out now q]. simpl. intros ->. reflexivity.
Qed.

Lemma run_js_snoc (ins : list input) (i : input) (h : host) :
  run_js body timer_body (ins ++ [i]) h
  = step_js body timer_body (run_js body timer_body ins h) i.
Proof. unfold run_js. rewrite fold_left_app. reflexivity. Qed.

End HostFacts.

Lemma natives_snoc (ins : list input) (i : input) :
  natives (ins ++ [i])
  = natives ins ++ match i with Native e => [e] | Elapsed _ => [] end.
Proof. unfold natives. rewrite omap_app. destruct i; reflexivity. Qed.

Lemma elapsed_snoc (ins : list input) (i : input) :
  elapsed (ins ++ [i])
  = elapsed ins + match i with Native _ => 0 | Elapsed ms => ms end.
Proof.
  unfold elapsed. rewrite omap_app, list_sum_app.
  destruct i; simpl; lia.
Qed.

(** ** The toggle that logs the release *)

Lemma bare_toggling_cases (w : world) (e : event) :
  toggling 0 w ->
  (is_press e = false /\ (e = AltReleased -> visible w = false) /\ Bare.step w e = w)
  \/ (e = Press /\ visible w = false /\ Bare.step w e =
        World (alter (fun sf => Surface (title sf) (width sf) (height sf) true
                                  (html sf) (alive sf)) 0 (surfaces w))
              (hotkeys w) (alt_release w ++ [OnRelease 0]) true (draws w)
              (trace w ++ [E_invoke (OnPress 0); E_setVisible 0 true;
                           E_assign_visible true; E_registerAltRelease (OnRelease 0)]))
  \/ (e = Press /\ visible w = true /\ Bare.step w e =
        World (surfaces w) (hotkeys w) (alt_release w) true (draws w)
              (trace w ++ [E_invoke (OnPress 0)]))
  \/ (e = AltReleased /\ visible w = true /\ Bare.step w e =
        World (alter (fun sf => Surface (title sf) (width sf) (height sf) false
                                  (html sf) (alive sf)) 0 (surfaces w))
              (hotkeys w) [] false (draws w)
              (trace w ++ [E_invoke (OnRelease 0); E_setVisible 0 false;
                           E_assign_visible false])).
Proof.
  intros [Hk Hp].
  destruct e as [m key|].
  - destruct (decide ((m, key) = (Alt, 0x41%Z))) as [Heq|Hne].
    + injection Heq as -> ->. change (HotkeyPressed Alt 65) with Press.
      destruct (visible w) eqn:Hv.
      * right. right. left. split; [reflexivity|]. split; [reflexivity|].
        apply bare_press_visible; assumption.
      * right. left. split; [reflexivity|]. split; [reflexivity|].
        apply bare_press_hidden; assumption.
    + left. split; [|split; [discriminate|]].
      * destruct (is_press (HotkeyPressed m key)) eqn:Hi; [|reflexivity].
        apply is_press_Press in Hi. injection Hi as -> ->. elim Hne. reflexivity.
      * apply (step_by_other_hotkey _ w 0); assumption.
  - destruct (visible w) eqn:Hv.
    + right. right. right. split; [reflexivity|]. split; [reflexivity|].
      apply bare_release_armed; assumption.
    + left. split; [reflexivity|]. split; [reflexivity|].
      apply step_by_release_idle; assumption.
Qed.

Lemma bare_toggling_step (w : world) (e : event) :
  toggling 0 w -> toggling 0 (Bare.step w e).
Proof.
  intros Hw.
  destruct (bare_toggling_cases w e Hw)
    as [(_ & _ & ->)|[(_ & Hv & ->)|[(_ & Hv & ->)|(_ & Hv & ->)]]]; [exact Hw| | |];
    destruct Hw as [Hk Hp]; rewrite Hv in Hp; split; simpl;
    try exact Hk; try (rewrite Hp; reflexivity); reflexivity.
Qed.

(** A native event in the logging toggle: the process does what the
    toggle without refresh does, and a release that fires the handler
    prints one line. *)
Lemma logged_step_native (h : host) (e : event) :
  toggling 0 (proc h) ->
  Logged.step h (Native e)
  = Host (Bare.step (proc h) e)
         (console h ++ match e with
                       | AltReleased => if visible (proc h) then ["alt released"] else []
                       | _ => []
                       end)
         (clock h) (timers h).
Proof.
  intros [Hk Hp]. destruct e as [m key|].
  - rewrite app_nil_r.
    destruct (decide ((m, key) = (Alt, 0x41%Z))) as [Heq|Hne].
    + injection Heq as -> ->. change (HotkeyPressed Alt 65) with Press.
      unfold Logged.step, Bare.step.
      rewrite (step_js_press _ _ h 0 Hk), (step_by_press _ _ 0 Hk).
      destruct h as [[sfs hk ar v d t] out now q]. destruct v; reflexivity.
    + unfold Logged.step, Bare.step.
      rewrite (step_js_other_hotkey _ _ h 0 m key Hk Hne).
      rewrite (step_by_other_hotkey _ _ 0 m key Hk Hne).
      destruct h; reflexivity.
  - unfold Logged.step, Bare.step. destruct (visible (proc h)) eqn:Hv.
    + rewrite (step_js_release_one _ _ h _ Hp), (step_by_release_one _ _ _ Hp).
      destruct h as [[sfs hk ar v d t] out now q]. reflexivity.
    + rewrite (step_js_release_idle _ _ h Hp), (step_by_release_idle _ _ Hp).
      rewrite app_nil_r. destruct h; reflexivity.
Qed.

Lemma hides_app (l l' : list bool) : hides (l ++ l') = hides l + hides l'.
Proof. unfold hides. rewrite List.filter_app, length_app. reflexivity. Qed.

Lemma repeat_snoc {A : Type} (x : A) (n : nat) : repeat x n ++ [x] = repeat x (S n).
Proof. induction n as [|n IH]; [reflexivity|]. simpl. rewrite IH. reflexivity. Qed.

(** X10. The toggle that logs the release (second unnamed file) is the
    toggle without refresh on a surface 200 wide: its process state is
    what the handlers of the first file make of its own boot state on the
    same native events. On top of that it prints ["alt released"] once
    for every [setVisible(false)] call and never otherwise; it sets no
    timer, and the passing of time changes nothing but the clock. *)
Theorem logged_is_bare_plus_log (ins : list input) :
  proc Logged.boot
  = World [Surface "test" 200 400 false "" true] [(Alt, 0x41%Z, OnPress 0)] [] false 0
          [E_openWebview "test" 200 400 0; E_assign_visible false;
           E_registerHotkey Alt 0x41 (OnPress 0)]
  /\ proc (Logged.run ins Logged.boot) = Bare.run (natives ins) (proc Logged.boot)
  /\ console (Logged.run ins Logged.boot)
     = repeat "alt released"
         (hides (setVisible_calls (trace (proc (Logged.run ins Logged.boot)))))
  /\ clock (Logged.run ins Logged.boot) = elapsed ins
  /\ timers (Logged.run ins Logged.boot) = [].
Proof.
  split; [reflexivity|].
  assert (H : toggling 0 (proc (Logged.run ins Logged.boot))
              /\ proc (Logged.run ins Logged.boot) = Bare.run (natives ins) (proc Logged.boot)
              /\ console (Logged.run ins Logged.boot)
                 = repeat "alt released"
                     (hides (setVisible_calls (trace (proc (Logged.run ins Logged.boot)))))
              /\ clock (Logged.run ins Logged.boot) = elapsed ins
              /\ timers (Logged.run ins Logged.boot) = []);
    [|destruct H as (_ & H); exact H].
  induction ins as [|i ins IH] using rev_ind.
  - repeat split.
  - destruct IH as (Ht & Hp & Hc & Hn & Hq).
    unfold Logged.run in *. rewrite run_js_snoc, natives_snoc, elapsed_snoc.
    fold Logged.step. destruct i as [e|ms].
    + rewrite (logged_step_native _ e Ht). cbn [proc console clock timers].
      unfold Bare.run in *. rewrite run_by_snoc, <- Hp. fold Bare.step.
      split; [apply bare_toggling_step, Ht|]. split; [reflexivity|].
      split; [|split; [lia|exact Hq]].
      rewrite Hc.
      destruct (bare_toggling_cases _ e Ht)
        as [(Hi & Hr & ->)|[(-> & Hv & ->)|[(-> & Hv & ->)|(-> & Hv & ->)]]];
        simpl trace; unfold setVisible_calls; rewrite ?omap_app, ?hides_app; simpl.
      * destruct e; [apply app_nil_r|]. rewrite (Hr eq_refl). apply app_nil_r.
      * rewrite !app_nil_r, Nat.add_0_r. reflexivity.
      * rewrite !app_nil_r, Nat.add_0_r. reflexivity.
      * rewrite Hv, Nat.add_1_r. apply repeat_snoc.
    + unfold Logged.step. rewrite (step_js_elapsed_idle _ _ _ ms Hq).
      cbn [proc console clock timers]. rewrite app_nil_r.
      split; [exact Ht|split; [exact Hp|split; [exact Hc|split; [lia|reflexivity]]]].
Qed.

(** ** A surface per press, closed by a timer *)

Lemma enqueue_last (t : nat * timer_closure) (q : list (nat * timer_closure)) :
  Forall (fun u => u.1 <= t.1) q -> enqueue t q = q ++ [t].
Proof.
  induction 1 as [|u q Hu _ IH]; [reflexivity|].
  simpl in *. destruct (Nat.ltb_spec t.1 u.1) as [Hlt|_];
    [apply Nat.lt_nge in Hlt; contradiction|]. rewrite IH. reflexivity.
Qed.

Lemma queue_app (k : handle) (ds ds' : list nat) :
  queue k (ds ++ ds') = queue k ds ++ queue (k + length ds) ds'.
Proof.
  revert k. induction ds as [|d ds IH]; intros k; simpl.
  - rewrite Nat.add_0_r. reflexivity.
  - rewrite IH. replace (S k + length ds) with (k + S (length ds)) by lia. reflexivity.
Qed.

Lemma queue_due (k : handle) (ds : list nat) (P : nat -> Prop) :
  Forall P ds -> Forall (fun u => P u.1) (queue k ds).
Proof.
  intros H. revert k. induction H as [|d ds Hd _ IH]; intros k; simpl; constructor; auto.
Qed.

Lemma queue_filter_all (k : handle) (ds : list nat) (f : nat -> bool) :
  Forall (fun d => f d = true) ds ->
  List.filter (fun u => f u.1) (queue k ds) = queue k ds.
Proof.
  intros H. revert k. induction H as [|d ds Hd _ IH]; intros k; simpl; [reflexivity|].
  rewrite Hd, IH. reflexivity.
Qed.

Lemma queue_filter_none (k : handle) (ds : list nat) (f : nat -> bool) :
  Forall (fun d => f d = false) ds ->
  List.filter (fun u => f u.1) (queue k ds) = [].
Proof.
  intros H. revert k. induction H as [|d ds Hd _ IH]; intros k; simpl; [reflexivity|].
  rewrite Hd, IH. reflexivity.
Qed.

Lemma queue_handles (k : handle) (ds : list nat) :
  snd <$> queue k ds = ExitLater <$> seq k (length ds).
Proof.
  revert k. induction ds as [|d ds IH]; intros k; simpl; [reflexivity|].
  rewrite IH. reflexivity.
Qed.

(** An ascending list of press times splits into the presses whose
    surface is due to be closed at [now] and the later ones. *)
Lemma due_split (now : nat) (ts : list nat) :
  StronglySorted le ts ->
  exists a b, ts = a ++ b
    /\ Forall (fun t => t + 2500 <= now) a
    /\ Forall (fun t => now < t + 2500) b.
Proof.
  induction 1 as [|t ts Hs IH Hle].
  - exists [], []. repeat split; constructor.
  - destruct (le_lt_dec (t + 2500) now) as [Hd|Hd].
    + destruct IH as (a & b & -> & Ha & Hb).
      exists (t :: a), b. repeat split; [constructor; assumption|assumption].
    + exists [], (t :: ts). repeat split; [constructor|].
      constructor; [exact Hd|].
      eapply Forall_impl; [exact Hle|]. simpl. intros x Hx. lia.
Qed.

Lemma live_from_app (i : handle) (l l' : list surface) :
  live_from i (l ++ l') = live_from i l ++ live_from (i + length l) l'.
Proof.
  revert i. induction l as [|sf l IH]; intros i; simpl.
  - rewrite Nat.add_0_r. reflexivity.
  - rewrite IH. replace (S i + length l) with (i + S (length l)) by lia.
    destruct (alive sf); reflexivity.
Qed.

Lemma live_from_repeat (i : handle) (sf : surface) (n : nat) :
  live_from i (repeat sf n) = if alive sf then seq i n else [].
Proof.
  revert i. induction n as [|n IH]; intros i; simpl.
  - destruct (alive sf); reflexivity.
  - rewrite IH. destruct (alive sf); reflexivity.
Qed.

Lemma press_times_from_snoc (now : nat) (ins : list input) (i : input) :
  press_times_from now (ins ++ [i])
  = press_times_from now ins
    ++ match i with
       | Native e => if is_press e then [now + elapsed ins] else []
       | Elapsed _ => []
       end.
Proof.
  revert now. induction ins as [|j ins IH]; intros now.
  - simpl. destruct i as [e|ms]; [|reflexivity].
    unfold elapsed. simpl. rewrite Nat.add_0_r. destruct (is_press e); reflexivity.
  - simpl. destruct j as [e'|ms'].
    + rewrite IH. replace (elapsed (Native e' :: ins)) with (elapsed ins) by reflexivity.
      destruct (is_press e'); reflexivity.
    + rewrite IH. replace (elapsed (Elapsed ms' :: ins)) with (ms' + elapsed ins) by reflexivity.
      rewrite Nat.add_assoc. reflexivity.
Qed.

Lemma openWebview_calls_app (t l : list effect) :
  openWebview_calls (t ++ l) = openWebview_calls t ++ openWebview_calls l.
Proof. apply omap_app. Qed.

Lemma exit_calls_app (t l : list effect) :
  exit_calls (t ++ l) = exit_calls t ++ exit_calls l.
Proof. apply omap_app. Qed.

Lemma setVisible_calls_app (t l : list effect) :
  setVisible_calls (t ++ l) = setVisible_calls t ++ setVisible_calls l.
Proof. apply omap_app. Qed.

Lemma setHtml_calls_app (t l : list effect) :
  setHtml_calls (t ++ l) = setHtml_calls t ++ setHtml_calls l.
Proof. apply omap_app. Qed.

Lemma exits_observed (l : list handle) :
  openWebview_calls (E_exit <$> l) = []
  /\ exit_calls (E_exit <$> l) = l
  /\ setVisible_calls (E_exit <$> l) = []
  /\ setHtml_calls (E_exit <$> l) = [].
Proof.
  induction l as [|x l (H1 & H2 & H3 & H4)]; [repeat split|].
  repeat split; try assumption.
  change (exit_calls (E_exit <$> x :: l)) with (x :: exit_calls (E_exit <$> l)).
  rewrite H2. reflexivity.
Qed.

Section TimedFacts.

Variables default_width default_height : Z.

Local Abbreviation step := (Timed.step default_width default_height).
Local Abbreviation run := (Timed.run default_width default_height).
Local Abbreviation closed_surface := (Surface "test" default_width default_height false "" false).
Local Abbreviation open_surface := (Surface "test" default_width default_height false "" true).
Local Abbreviation inv := (timed_inv default_width default_height).

Lemma timed_press (h : host) :
  installed 0 (proc h) ->
  step h (Native Press) =
    Host (World (surfaces (proc h) ++ [open_surface])
                (hotkeys (proc h)) (alt_release (proc h)) (visible (proc h))
                (draws (proc h))
                (trace (proc h)
                 ++ [E_invoke (OnPress 0);
                     E_openWebview "test" default_width default_height
                       (length (surfaces (proc h)))]))
         (console h) (clock h)
         (enqueue (clock h + 2500, ExitLater (length (surfaces (proc h)))) (timers h)).
Proof.
  intros Hk. unfold Timed.step. rewrite (step_js_press _ _ h 0 Hk).
  destruct h as [[sfs hk ar v d t] out now q]. unfold exec_js. cbn.
  rewrite <- !app_assoc. reflexivity.
Qed.

(** Running the timers of the surfaces [k], [k+1], ... closes them in
    that order. *)
Lemma fire_queue (ds : list nat) (k : handle) (rest : list surface)
    (hk : list (Modifiers * Z * closure)) (ar : list closure) (v : bool) (d : nat)
    (t : list effect) (out : list string) (now : nat) (q : list (nat * timer_closure)) :
  exec_js (fire_all (Timed.timer_body) (queue k ds))
    (Host (World (repeat closed_surface k ++ repeat open_surface (length ds) ++ rest)
                 hk ar v d t) out now q)
  = Host (World (repeat closed_surface (k + length ds) ++ rest)
                hk ar v d (t ++ (E_exit <$> seq k (length ds)))) out now q.
Proof.
  revert k t. induction ds as [|d0 ds IH]; intros k t.
  - simpl. rewrite Nat.add_0_r, app_nil_r. reflexivity.
  - simpl queue. simpl fire_all. unfold exec_js, bind_js in *.
    simpl Timed.timer_body. unfold lift at 1. cbn [proc console clock timers].
    unfold exit at 1. unfold bind, modify, log. cbn.
    rewrite (alter_app_r_alt _ (repeat closed_surface k)) by (rewrite repeat_length; lia).
    rewrite repeat_length, Nat.sub_diag. simpl alter.
    specialize (IH (S k) (t ++ [E_exit k])).
    replace (repeat closed_surface k ++ closed_surface :: repeat open_surface (length ds) ++ rest)
      with (repeat closed_surface (S k) ++ repeat open_surface (length ds) ++ rest).
    + rewrite IH. simpl length.
      replace (k + S (length ds)) with (S k + length ds) by lia.
      rewrite <- app_assoc. reflexivity.
    + rewrite <- repeat_snoc, <- app_assoc. reflexivity.
Qed.

Lemma timed_inv_boot : inv [] [] Timed.boot.
Proof.
  split; try reflexivity; try constructor; repeat split.
Qed.

Lemma timed_inv_press (ts1 ts2 : list nat) (h : host) :
  inv ts1 ts2 h -> inv ts1 (ts2 ++ [clock h]) (step h (Native Press)).
Proof.
  intros [Hs Hp Hc Ho Hsf Hq Hk Ha Hop Hex (Hv & Hh & Hout)].
  rewrite (timed_press h Hk).
  assert (Hlen : length (surfaces (proc h)) = length ts1 + length ts2)
    by (rewrite Hsf, length_app, !repeat_length; reflexivity).
  split; cbn [proc console clock timers surfaces hotkeys alt_release trace].
  - rewrite app_assoc. apply StronglySorted_app_2; [|exact Hs|repeat constructor].
    intros x y Hx Hy. apply list_elem_of_singleton in Hy. subst y.
    apply elem_of_app in Hx as [Hx|Hx].
    + rewrite Forall_forall in Hc. specialize (Hc x Hx). simpl in Hc. lia.
    + rewrite Forall_forall in Hp. exact (Hp x Hx).
  - apply Forall_app. split; [exact Hp|]. repeat constructor.
  - exact Hc.
  - apply Forall_app. split; [exact Ho|]. repeat constructor. lia.
  - rewrite Hsf, length_app, <- app_assoc. simpl length.
    rewrite Nat.add_1_r, <- repeat_snoc. reflexivity.
  - rewrite enqueue_last.
    + rewrite Hq, fmap_app, queue_app, length_fmap, Hlen. reflexivity.
    + rewrite Hq. apply (queue_due _ _ (fun d => d <= clock h + 2500)). apply Forall_fmap.
      eapply Forall_impl; [exact Hp|]. simpl. intros x Hx. lia.
  - exact Hk.
  - exact Ha.
  - unfold openWebview_calls in *. rewrite omap_app, Hop. simpl.
    rewrite Hlen, app_assoc, !length_app. simpl. rewrite <- length_app.
    rewrite Nat.add_1_r, seq_S, length_app. reflexivity.
  - unfold exit_calls in *. rewrite omap_app, Hex. apply app_nil_r.
  - unfold setVisible_calls, setHtml_calls in *. rewrite !omap_app, Hv, Hh. auto.
Qed.

Lemma timed_inv_elapsed (ts1 ts2 : list nat) (h : host) (ms : nat) :
  inv ts1 ts2 h ->
  exists a b, ts2 = a ++ b /\ inv (ts1 ++ a) b (step h (Elapsed ms))
              /\ clock (step h (Elapsed ms)) = clock h + ms.
Proof.
  intros [Hs Hp Hc Ho Hsf Hq Hk Ha Hop Hex (Hv & Hh & Hout)].
  destruct (due_split (clock h + ms) ts2) as (a & b & -> & Hda & Hdb).
  { apply StronglySorted_app_1_r in Hs. exact Hs. }
  exists a, b. split; [reflexivity|].
  assert (Hstep : step h (Elapsed ms) =
    Host (World (repeat closed_surface (length ts1 + length a)
                 ++ repeat open_surface (length b))
                (hotkeys (proc h)) (alt_release (proc h)) (visible (proc h))
                (draws (proc h))
                (trace (proc h) ++ (E_exit <$> seq (length ts1) (length a))))
         (console h) (clock h + ms)
         (queue (length ts1 + length a) ((fun t => t + 2500) <$> b))).
  { destruct h as [[sfs hk ar v d t] out now q]. simpl in *. subst sfs q.
    unfold Timed.step, step_js, exec_js, deliver_js, bind_js, get_js, put_js.
    cbn [proc console clock timers].
    rewrite fmap_app, queue_app, !List.filter_app, length_fmap.
    rewrite (queue_filter_all _ _ (fun d => (d <=? now + ms)%nat)),
            (queue_filter_none _ _ (fun d => (d <=? now + ms)%nat)),
            (queue_filter_none _ _ (fun d => (now + ms <? d)%nat)),
            (queue_filter_all _ _ (fun d => (now + ms <? d)%nat)).
    - rewrite app_nil_r. simpl app.
      pose proof (fire_queue ((fun t => t + 2500) <$> a) (length ts1)
                    (repeat open_surface (length b)) hk ar v d t out (now + ms)
                    (queue (length ts1 + length a) ((fun t => t + 2500) <$> b))) as Hf.
      unfold exec_js in Hf. rewrite length_fmap in Hf.
      rewrite length_app, repeat_app.
      exact Hf.
    - apply Forall_fmap. eapply Forall_impl; [exact Hdb|]. simpl. intros x Hx.
      apply Nat.ltb_lt. lia.
    - apply Forall_fmap. eapply Forall_impl; [exact Hda|]. simpl. intros x Hx.
      apply Nat.ltb_ge. lia.
    - apply Forall_fmap. eapply Forall_impl; [exact Hdb|]. simpl. intros x Hx.
      apply Nat.leb_gt. lia.
    - apply Forall_fmap. eapply Forall_impl; [exact Hda|]. simpl. intros x Hx.
      apply Nat.leb_le. lia. }
  rewrite Hstep. split; [|reflexivity].
  apply Forall_app in Hp as [Hpa Hpb]. apply Forall_app in Ho as [Hoa Hob].
  split; cbn [proc console clock timers surfaces hotkeys alt_release trace].
  - rewrite <- app_assoc. exact Hs.
  - eapply Forall_impl; [exact Hpb|]. simpl. intros x Hx. lia.
  - apply Forall_app. split; [|exact Hda].
    eapply Forall_impl; [exact Hc|]. simpl. intros x Hx. lia.
  - exact Hdb.
  - rewrite length_app. reflexivity.
  - rewrite length_app. reflexivity.
  - exact Hk.
  - exact Ha.
  - destruct (exits_observed (seq (length ts1) (length a))) as (H1 & _).
    rewrite openWebview_calls_app, Hop, H1, <- app_assoc. apply app_nil_r.
  - destruct (exits_observed (seq (length ts1) (length a))) as (_ & H2 & _).
    rewrite exit_calls_app, Hex, H2, length_app, seq_app. reflexivity.
  - destruct (exits_observed (seq (length ts1) (length a))) as (_ & _ & H3 & H4).
    rewrite setVisible_calls_app, setHtml_calls_app, Hv, Hh, H3, H4. auto.
Qed.

Lemma timed_idle (h : host) (e : event) :
  installed 0 (proc h) -> alt_release (proc h) = [] -> is_press e = false ->
  step h (Native e) = h.
Proof.
  intros Hk Ha Hi. destruct e as [m key|].
  - apply (step_js_other_hotkey _ _ h 0); [exact Hk|].
    intros Heq. injection Heq as -> ->. discriminate.
  - apply step_js_release_idle, Ha.
Qed.

(** Every state reached is one of those described by [timed_inv], for the
    press times of the inputs. *)
Lemma timed_reachable (ins : list input) :
  exists ts1 ts2,
    press_times ins = ts1 ++ ts2
    /\ inv ts1 ts2 (run ins Timed.boot)
    /\ clock (run ins Timed.boot) = elapsed ins.
Proof.
  induction ins as [|i ins IH] using rev_ind.
  - exists [], []. split; [reflexivity|]. split; [apply timed_inv_boot|reflexivity].
  - destruct IH as (ts1 & ts2 & Hts & Hinv & Hclk).
    unfold Timed.run, press_times in *.
    rewrite run_js_snoc, press_times_from_snoc, elapsed_snoc. fold step.
    destruct i as [e|ms].
    + destruct (is_press e) eqn:Hi.
      * apply is_press_Press in Hi. subst e.
        exists ts1, (ts2 ++ [elapsed ins]). rewrite Hts, <- app_assoc, Nat.add_0_r.
        split; [reflexivity|]. rewrite <- Hclk.
        split; [apply timed_inv_press, Hinv|].
        rewrite (timed_press _ (ti_hotkeys _ _ _ _ _ Hinv)). reflexivity.
      * rewrite (timed_idle _ e (ti_hotkeys _ _ _ _ _ Hinv) (ti_pending _ _ _ _ _ Hinv) Hi).
        exists ts1, ts2. rewrite app_nil_r, Nat.add_0_r. auto.
    + destruct (timed_inv_elapsed ts1 ts2 _ ms Hinv) as (a & b & -> & Hinv' & Hclk').
      exists (ts1 ++ a), b. rewrite app_nil_r, Hts, <- app_assoc.
      split; [reflexivity|]. split; [exact Hinv'|]. rewrite Hclk', Hclk. reflexivity.
Qed.

End TimedFacts.

Lemma presses_cons (e : event) (evs : list event) :
  presses (e :: evs) = (if is_press e then 1 else 0) + presses evs.
Proof. unfold presses. simpl. destruct (is_press e); reflexivity. Qed.

Lemma press_times_length (now : nat) (ins : list input) :
  length (press_times_from now ins) = presses (natives ins).
Proof.
  revert now. induction ins as [|i ins IH]; intros now; [reflexivity|].
  destruct i as [e|ms]; simpl.
  - change (natives (Native e :: ins)) with (e :: natives ins).
    rewrite presses_cons. destruct (is_press e); simpl; rewrite IH; reflexivity.
  - apply IH.
Qed.

Lemma fmap_constant {A B : Type} (f : A -> B) (c : B) (l : list A) :
  Forall (fun x => f x = c) l -> f <$> l = repeat c (length l).
Proof.
  induction 1 as [|x l Hx _ IH]; [reflexivity|].
  rewrite fmap_cons, IH. simpl in *. rewrite Hx. reflexivity.
Qed.

Section TimedLifetime.

Variables default_width default_height : Z.

Local Abbreviation run := (Timed.run default_width default_height).

(** X11. In the third unnamed file every press of the hotkey opens a
    surface of its own, presses in a row included, and a surface is alive
    exactly while fewer than 2500 ms have passed since the press that
    opened it. Each live surface has one pending timer, the closed ones
    were closed by one [exit] call each, in the order they were opened,
    and nothing is ever shown or given a page. *)
Theorem timed_surface_lifetime (ins : list input) :
  surfaces (proc (run ins Timed.boot))
  = (fun t => Surface "test" default_width default_height false ""
                (elapsed ins <? t + 2500)%nat) <$> press_times ins
  /\ snd <$> timers (run ins Timed.boot)
     = ExitLater <$> live (surfaces (proc (run ins Timed.boot)))
  /\ openWebview_calls (trace (proc (run ins Timed.boot)))
     = seq 0 (presses (natives ins))
  /\ exit_calls (trace (proc (run ins Timed.boot)))
     = seq 0 (presses (natives ins)
              - length (live (surfaces (proc (run ins Timed.boot)))))
  /\ setVisible_calls (trace (proc (run ins Timed.boot))) = []
  /\ setHtml_calls (trace (proc (run ins Timed.boot))) = [].
Proof.
  destruct (timed_reachable default_width default_height ins)
    as (ts1 & ts2 & Hts & [Hs Hp Hc Ho Hsf Hq Hk Ha Hop Hex (Hv & Hh & Hout)] & Hclk).
  assert (Hlive : live (surfaces (proc (run ins Timed.boot))) = seq (length ts1) (length ts2)).
  { rewrite Hsf. unfold live. rewrite live_from_app, !live_from_repeat, repeat_length.
    reflexivity. }
  assert (Hn : presses (natives ins) = length ts1 + length ts2).
  { unfold press_times in Hts. rewrite <- (press_times_length 0), Hts, length_app.
    reflexivity. }
  rewrite Hlive, Hn, length_seq, Hclk in *.
  split; [|split; [|split; [|split; [|split; assumption]]]].
  - rewrite Hsf, Hts, fmap_app. f_equal; symmetry; apply fmap_constant.
    + eapply Forall_impl; [exact Hc|]. simpl. intros t Ht.
      replace (elapsed ins <? t + 2500)%nat with false; [reflexivity|].
      symmetry. apply Nat.ltb_ge. exact Ht.
    + eapply Forall_impl; [exact Ho|]. simpl. intros t Ht.
      replace (elapsed ins <? t + 2500)%nat with true; [reflexivity|].
      symmetry. apply Nat.ltb_lt. exact Ht.
  - rewrite Hq, queue_handles, length_fmap. reflexivity.
  - rewrite Hop, length_app. reflexivity.
  - rewrite Hex. f_equal. lia.
Qed.

(** X12. No surface outlives its timer: once 2500 ms or more pass with no
    further input, every surface that was opened has been closed, by
    exactly one [exit] call each, and no timer is left. *)
Theorem timed_all_closed_after_delay (ins : list input) (ms : nat) :
  2500 <= ms ->
  timers (run (ins ++ [Elapsed ms]) Timed.boot) = []
  /\ live (surfaces (proc (run (ins ++ [Elapsed ms]) Timed.boot))) = []
  /\ length (surfaces (proc (run (ins ++ [Elapsed ms]) Timed.boot)))
     = presses (natives ins)
  /\ exit_calls (trace (proc (run (ins ++ [Elapsed ms]) Timed.boot)))
     = seq 0 (presses (natives ins)).
Proof.
  intros Hms.
  destruct (timed_reachable default_width default_height ins)
    as (ts1 & ts2 & Hts & Hinv & Hclk).
  unfold Timed.run. rewrite run_js_snoc. fold run.
  fold (Timed.step default_width default_height).
  destruct (timed_inv_elapsed default_width default_height ts1 ts2 _ ms Hinv)
    as (a & b & -> & [Hs Hp Hc Ho Hsf Hq Hk Ha Hop Hex _] & Hclk').
  assert (Hb : b = []).
  { destruct b as [|t b]; [reflexivity|]. exfalso.
    pose proof (ti_past _ _ _ _ _ Hinv) as Hpast.
    apply Forall_app in Hpast as [_ Hpast].
    apply Forall_cons in Hpast as [Hpast _]. apply Forall_cons in Ho as [Ho _].
    rewrite Hclk' in Ho. lia. }
  subst b.
  assert (Hn : presses (natives ins) = length (ts1 ++ a)).
  { unfold press_times in Hts. rewrite <- (press_times_length 0), Hts, app_nil_r.
    reflexivity. }
  rewrite Hq, Hsf, Hex, Hn. simpl. rewrite app_nil_r, repeat_length.
  repeat split. unfold live. apply live_from_repeat.
Qed.

End TimedLifetime.

(** ** Instances of the properties above *)

Lemma idle_events_change_nothing_witness :
  is_press AltReleased = false
  /\ visible (run dice [Press; AltReleased] boot) = false
  /\ step dice (run dice [Press; AltReleased] boot) AltReleased
     = run dice [Press; AltReleased] boot.
Proof.
  assert (Hi : is_press AltReleased = false) by reflexivity.
  assert (Hv : visible (run dice [Press; AltReleased] boot) = false) by reflexivity.
  destruct (idle_events_change_nothing dice [Press; AltReleased] AltReleased Hi
              (fun _ => Hv)) as [Hs _].
  exact (conj Hi (conj Hv Hs)).
Defined.

Lemma bare_press_while_visible_is_silent_witness :
  installed 0 (Bare.step boot Press)
  /\ visible (Bare.step boot Press) = true
  /\ emitted (Bare.step boot Press) (Bare.run (repeat Press 2) (Bare.step boot Press))
     = [E_invoke (OnPress 0); E_invoke (OnPress 0)].
Proof.
  assert (Hk : installed 0 (Bare.step boot Press)) by reflexivity.
  assert (Hv : visible (Bare.step boot Press) = true) by reflexivity.
  destruct (bare_press_while_visible_is_silent (Bare.step boot Press) 0 2 Hk Hv)
    as (_ & _ & _ & _ & _ & He).
  exact (conj Hk (conj Hv He)).
Defined.

Lemma flip_twice_restores_witness :
  installed 0 Flip.boot
  /\ visible (Flip.run [Press; Press] Flip.boot) = false
  /\ surface_calls (emitted Flip.boot (Flip.run [Press; Press] Flip.boot))
     = [E_setVisible 0 true; E_setVisible 0 false].
Proof.
  assert (Hk : installed 0 Flip.boot) by reflexivity.
  destruct (flip_twice_restores Flip.boot 0 Hk) as (Hv & _ & Hs & _).
  exact (conj Hk (conj Hv Hs)).
Defined.

Lemma timed_all_closed_after_delay_witness :
  2500 <= 2500
  /\ timers (Timed.run 300 200 ([Native Press; Elapsed 100; Native Press] ++ [Elapsed 2500])
               Timed.boot) = []
  /\ exit_calls (trace (proc (Timed.run 300 200
                                ([Native Press; Elapsed 100; Native Press] ++ [Elapsed 2500])
                                Timed.boot))) = [0; 1].
Proof.
  assert (Hms : 2500 <= 2500) by lia.
  destruct (timed_all_closed_after_delay 300 200
              [Native Press; Elapsed 100; Native Press] 2500 Hms) as (Hq & _ & _ & He).
  exact (conj Hms (conj Hq He)).
Defined.
